(** * Hallucination tracker: detector and scorer

    Shallow embedding of [src/hallucination_detector.py] and [src/scoring.py].

    Modelling choices:
    - Python [str] values are [String.string]; characters are the Latin-1
      code points 0..255 ([ascii] holds one byte), on which [str.strip],
      [str.lower] and the regex class [\d] are written out below.
    - The detector's Python floats are exact rationals [Q]: it only ever
      adds the constants 0.4, 0.2 and 0.3, and the eight reachable sums,
      compared with 0.6 and 0.4 and rounded to two places by Python's
      correctly rounded [round], give the same results in IEEE doubles as
      in exact arithmetic.  The value stored in the frame is the double
      nearest that two-place result.
    - The scorer's pandas columns are float64: a cell holds a finite double
      (as the rational it denotes), an infinity, or NaN, and every
      operation rounds its exact result to the nearest double (ties to
      even), overflowing to an infinity.  Signed zeros are not told apart.
      Integer columns take part as their float64 values; the one
      integer-only step, [1 - confidence_score] on an int64 column, is
      exact in the model, which does not wrap around at -2^63.
    - A pandas DataFrame is a list of column names and a list of rows; a row
      is an association list from column names to cells; an absent entry
      reads as NaN, the pandas missing value.
    - Exceptions are the [inl] side of a [sum] error monad. *)

From Stdlib Require Import String Ascii List ZArith QArith Qpower Qround Qabs Qminmax Bool Lia Sorted.
From Stdlib Require Import OrderedTypeEx Lqa.
Import ListNotations.
Open Scope string_scope.
Open Scope nat_scope.

(* ------------------------------------------------------------------ *)
(** ** Characters and strings *)

Definition code (c : ascii) : nat := nat_of_ascii c.

(** [str.isspace] on Latin-1: \t \n \v \f \r, \x1c-\x1f, space, \x85, \xa0. *)
Definition is_space (c : ascii) : bool :=
  let n := code c in
  ((9 <=? n) && (n <=? 13)) || ((28 <=? n) && (n <=? 32))
  || (n =? 133) || (n =? 160).

(** [str.lower] on Latin-1: A-Z and the letters \xc0-\xde except \xd7. *)
Definition lower_char (c : ascii) : ascii :=
  let n := code c in
  if ((65 <=? n) && (n <=? 90)) || ((192 <=? n) && (n <=? 222) && negb (n =? 215))
  then ascii_of_nat (n + 32) else c.

Fixpoint lower (s : string) : string :=
  match s with
  | EmptyString => EmptyString
  | String c s' => String (lower_char c) (lower s')
  end.

Fixpoint lstrip (s : string) : string :=
  match s with
  | EmptyString => EmptyString
  | String c s' => if is_space c then lstrip s' else s
  end.

Fixpoint rev_str (s : string) (acc : string) : string :=
  match s with
  | EmptyString => acc
  | String c s' => rev_str s' (String c acc)
  end.

Definition rstrip (s : string) : string :=
  rev_str (lstrip (rev_str s EmptyString)) EmptyString.

(** [str.strip()] *)
Definition strip (s : string) : string := rstrip (lstrip s).

(** Python's [needle in haystack] on strings. *)
Fixpoint contains (needle hay : string) : bool :=
  prefix needle hay ||
  match hay with
  | EmptyString => false
  | String _ hay' => contains needle hay'
  end.

(** The regex class [\d]: Unicode decimal digits, i.e. 0-9 in Latin-1. *)
Definition is_digit (c : ascii) : bool :=
  let n := code c in (48 <=? n) && (n <=? 57).

Fixpoint any_char (p : ascii -> bool) (s : string) : bool :=
  match s with
  | EmptyString => false
  | String c s' => p c || any_char p s'
  end.

(* ------------------------------------------------------------------ *)
(** ** Cells and [str()] *)

(** A DataFrame cell: a Python string, a finite number, an infinity
    ([neg] for -inf), or the missing value NaN. *)
Inductive cell : Type :=
| CStr (s : string)
| CNum (q : Q)
| CInf (neg : bool)
| CNaN.

Definition digit_char (d : Z) : ascii := ascii_of_nat (48 + Z.to_nat d).

Fixpoint z_digits (fuel : nat) (n : Z) (acc : string) : string :=
  match fuel with
  | O => acc
  | S f =>
      let acc' := String (digit_char (n mod 10)) acc in
      if (n <? 10)%Z then acc' else z_digits f (n / 10)%Z acc'
  end.

(** Decimal digits of a natural number [n]. *)
Definition z_repr (n : Z) : string :=
  match n with
  | Zpos p => z_digits (Pos.size_nat p) n EmptyString
  | _ => "0"
  end.

(** Fractional digits of [x] in [0,1), until the expansion ends (at most
    17 digits). *)
Fixpoint frac_digits (fuel : nat) (x : Q) : string :=
  match fuel with
  | O => EmptyString
  | S f =>
      let y := (x * 10)%Q in
      let d := Qfloor y in
      let r := (y - inject_Z d)%Q in
      String (digit_char d) (if Qeq_bool r 0 then EmptyString else frac_digits f r)
  end.

(** [repr] of a float: "42.0" for integral values, the decimal expansion
    otherwise (the float values met here have short expansions). *)
Definition q_repr (q : Q) : string :=
  let a := Qabs q in
  let n := Qfloor a in
  let r := (a - inject_Z n)%Q in
  (if Qle_bool 0 q then EmptyString else "-") ++ z_repr n ++ "." ++
  (if Qeq_bool r 0 then "0" else frac_digits 17 r).

(** [str(value)] *)
Definition py_str (c : cell) : string :=
  match c with
  | CStr s => s
  | CNum q => q_repr q
  | CInf neg => if neg then "-inf" else "inf"
  | CNaN => "nan"
  end.

(* ------------------------------------------------------------------ *)
(** ** Rounding *)

Definition Qltb (x y : Q) : bool := negb (Qle_bool y x).

(** Round half to even to an integer. *)
Definition rint (y : Q) : Z :=
  let f := Qfloor y in
  let r := (y - inject_Z f)%Q in
  if Qltb r (1 # 2) then f
  else if Qltb (1 # 2) r then (f + 1)%Z
  else if Z.even f then f else (f + 1)%Z.

(** [round(x, 2)]; the result is kept as a fraction over 100. *)
Definition round2 (x : Q) : Q := rint (x * 100) # 100.

(* ------------------------------------------------------------------ *)
(** ** IEEE 754 binary64 *)

Definition pow2 (e : Z) : Q := Qpower (2 # 1) e.

(** [floor(log2 a)] for [a > 0]. *)
Definition qlog2 (a : Q) : Z :=
  let k := (Z.log2 (Qnum a) - Z.log2 (Zpos (Qden a)))%Z in
  if Qle_bool (pow2 k) a then k else (k - 1)%Z.

(** The exponent of the last bit of a double near [a > 0]: 53 significant
    bits, and no bit below 2^-1074 (the subnormal range). *)
Definition ulp_exp (a : Q) : Z := Z.max (qlog2 a - 52) (-1074).

(** [a >= 0] rounded to the nearest multiple of its last bit, ties to an
    even multiple; the result is in lowest terms. *)
Definition rnd_pos (a : Q) : Q :=
  if Qle_bool a 0 then 0
  else let e := ulp_exp a in Qred (inject_Z (rint (a / pow2 e)) * pow2 e).

(** The double nearest [x], before the overflow check. *)
Definition dbl (x : Q) : Q := if Qle_bool 0 x then rnd_pos x else - rnd_pos (- x).

(** An exact result rounded to binary64: a result whose rounded magnitude
    reaches 2^1024 overflows to an infinity. *)
Definition to_f64 (x : Q) : cell :=
  if Qle_bool (pow2 1024) (Qabs (dbl x)) then CInf (Qltb x 0) else CNum (dbl x).

(** The largest finite double, (2^53 - 1) * 2^971. *)
Definition max_f64 : Q := inject_Z ((2 ^ 53 - 1) * 2 ^ 971).

(** A value a float64 column can hold: no number beyond the largest
    double. *)
Definition f64_range (c : cell) : bool :=
  match c with
  | CNum q => Qle_bool (Qabs q) max_f64
  | _ => true
  end.

(** [float(n)] of a count (an int64, far below the overflow bound). *)
Definition f64_of_nat (n : nat) : cell := CNum (dbl (inject_Z (Z.of_nat n))).

Definition is_nan (c : cell) : bool := match c with CNaN => true | _ => false end.

(** A cell holding a string (an [object] value pandas arithmetic rejects). *)
Definition is_str (c : cell) : bool := match c with CStr _ => true | _ => false end.

(** The float operations; the callers reject strings before they get
    here. *)
Definition f_neg (a : cell) : cell :=
  match a with
  | CNum p => CNum (- p)
  | CInf s => CInf (negb s)
  | _ => a
  end.

Definition f_add (a b : cell) : cell :=
  match a, b with
  | CNum p, CNum q => to_f64 (p + q)
  | CNum _, CInf s | CInf s, CNum _ => CInf s
  | CInf s, CInf t => if Bool.eqb s t then CInf s else CNaN
  | _, _ => CNaN
  end.

Definition f_sub (a b : cell) : cell := f_add a (f_neg b).

Definition f_mul (a b : cell) : cell :=
  match a, b with
  | CNum p, CNum q => to_f64 (p * q)
  | CNum p, CInf s | CInf s, CNum p =>
      if Qeq_bool p 0 then CNaN else CInf (xorb s (Qltb p 0))
  | CInf s, CInf t => CInf (xorb s t)
  | _, _ => CNaN
  end.

(** Division; a zero divisor counts as +0.0. *)
Definition f_div (a b : cell) : cell :=
  match a, b with
  | CNum p, CNum q =>
      if Qeq_bool q 0 then (if Qeq_bool p 0 then CNaN else CInf (Qltb p 0))
      else to_f64 (p / q)
  | CInf s, CNum q => CInf (xorb s (Qltb q 0))
  | CNum _, CInf _ => CNum 0
  | _, _ => CNaN
  end.

(** [numpy.rint]: the nearest integer, ties to even (always a double). *)
Definition f_rint (a : cell) : cell :=
  match a with
  | CNum p => CNum (inject_Z (rint p))
  | _ => a
  end.

(** [Series.round(2)] on float64: numpy multiplies by 100.0, rounds to an
    integer with [rint] and divides by 100.0, each step in doubles. *)
Definition f_round2 (a : cell) : cell :=
  f_div (f_rint (f_mul a (CNum 100))) (CNum 100).

(* ------------------------------------------------------------------ *)
(** ** HallucinationDetector *)

Module Detector.

Definition uncertainty_phrases : list string :=
  [ "i think"; "it seems"; "possibly"; "might be"; "not sure";
    "approximately"; "around"; "estimated" ].

Definition contains_uncertainty (text : string) : bool :=
  let text := lower text in
  existsb (fun phrase => contains phrase text) uncertainty_phrases.

Definition has_numeric_claim (text : string) : bool := any_char is_digit text.

(** Python's [min(a, b)]: [b] if [b < a], else [a]. *)
Definition py_min (a b : Q) : Q := if Qltb b a then b else a.

(** The score before the clamp. *)
Definition raw_score (t : string) : Q :=
  let s := 0%Q in
  let s := if contains_uncertainty t then (s + (4 # 10))%Q else s in
  let s := if has_numeric_claim t then (s + (2 # 10))%Q else s in
  if (String.length t <? 30)%nat then (s + (3 # 10))%Q else s.

Definition normalize (v : cell) : string := lower (strip (py_str v)).

Definition hallucination_score (v : cell) : Q :=
  py_min (raw_score (normalize v)) 1.

(** [score_response]: (hallucination_flag, confidence_score, final_label). *)
Definition score_response (v : cell) : Z * Q * string :=
  let hs := hallucination_score v in
  let confidence_score := round2 (1 - hs) in
  if Qle_bool (6 # 10) hs then (1%Z, confidence_score, "hallucinated")
  else if Qle_bool (4 # 10) hs then (0%Z, confidence_score, "uncertain")
  else (0%Z, confidence_score, "accurate").

End Detector.

(* ------------------------------------------------------------------ *)
(** ** DataFrames and exceptions *)

(** The exceptions the batch operations can raise: the required-column
    [ValueError] raised by the code's own schema checks, pandas' [KeyError]
    for a column that does not exist, and [TypeError] for arithmetic on
    non-numeric cells. *)
Inductive error : Type :=
| SchemaError (msg : string)
| KeyError (col : string)
| TypeError.

Definition result (A : Type) : Type := (error + A)%type.

Definition ret {A} (a : A) : result A := inr a.

Definition bind {A B} (m : result A) (k : A -> result B) : result B :=
  match m with
  | inl e => inl e
  | inr a => k a
  end.

Notation "x <- m ;; k" := (bind m (fun x => k))
  (at level 61, m at next level, right associativity).

Fixpoint mapM {A B} (f : A -> result B) (l : list A) : result (list B) :=
  match l with
  | [] => ret []
  | a :: l' => b <- f a ;; bs <- mapM f l' ;; ret (b :: bs)
  end.

Definition row : Type := list (string * cell).

Record frame : Type := mkFrame { columns : list string; rows : list row }.

Definition has_col (c : string) (cols : list string) : bool :=
  existsb (String.eqb c) cols.

(** [row[c]]; an entry the row does not carry is NaN. *)
Fixpoint get (r : row) (c : string) : cell :=
  match r with
  | [] => CNaN
  | (k, v) :: r' => if String.eqb k c then v else get r' c
  end.

Fixpoint set (r : row) (c : string) (v : cell) : row :=
  match r with
  | [] => [(c, v)]
  | (k, w) :: r' => if String.eqb k c then (k, v) :: r' else (k, w) :: set r' c v
  end.

(** [df[c] = values]: overwrite or append the column. *)
Definition assign (df : frame) (c : string) (vals : list cell) : frame :=
  mkFrame (if has_col c (columns df) then columns df else columns df ++ [c])
          (map (fun '(r, v) => set r c v) (combine (rows df) vals)).

(* ------------------------------------------------------------------ *)
(** ** [HallucinationDetector.analyze_dataframe] *)

Definition flag_cell (o : Z * Q * string) : cell := let '(f, _, _) := o in CNum (inject_Z f).
(** [round] returns the double nearest its two-place result. *)
Definition conf_cell (o : Z * Q * string) : cell := let '(_, c, _) := o in to_f64 c.
Definition label_cell (o : Z * Q * string) : cell := let '(_, _, l) := o in CStr l.

Definition analyze_dataframe (df : frame) : result frame :=
  if negb (has_col "response_text" (columns df)) then
    inl (SchemaError "DataFrame must contain 'response_text' column")
  else
    let results := df in
    let outputs := map (fun r => Detector.score_response (get r "response_text"))
                       (rows results) in
    let results := assign results "hallucination_flag" (map flag_cell outputs) in
    let results := assign results "confidence_score" (map conf_cell outputs) in
    let results := assign results "final_label" (map label_cell outputs) in
    ret results.

(* ------------------------------------------------------------------ *)
(** ** Cell arithmetic (pandas semantics: float64 operations, strings
    raise) *)

(** [a - c] for a Python number [a]. *)
Definition cell_sub (a : Q) (c : cell) : result cell :=
  match c with
  | CStr _ => inl TypeError
  | _ => ret (f_sub (CNum a) c)
  end.

(** [c * a] for a Python float [a]. *)
Definition cell_mul (c : cell) (a : Q) : result cell :=
  match c with
  | CStr _ => inl TypeError
  | _ => ret (f_mul c (CNum a))
  end.

Definition cell_add (c d : cell) : result cell :=
  match c, d with
  | CStr _, _ | _, CStr _ => inl TypeError
  | _, _ => ret (f_add c d)
  end.

Definition cell_round2 (c : cell) : result cell :=
  match c with
  | CStr _ => inl TypeError
  | _ => ret (f_round2 c)
  end.

(* ------------------------------------------------------------------ *)
(** ** [HallucinationScorer.compute_final_score] *)

Definition required_cols : list string :=
  [ "hallucination_flag"; "confidence_score"; "final_label" ].

Definition subset_cols (req cols : list string) : bool :=
  forallb (fun c => has_col c cols) req.

(** [((1 - confidence_score) + hallucination_flag * 0.5).round(2)] on one
    row; pandas evaluates it column by column, with the same outcome: the
    values below, or the first [TypeError] for the whole column. *)
Definition risk_of_row (r : row) : result cell :=
  a <- cell_sub 1 (get r "confidence_score") ;;
  b <- cell_mul (get r "hallucination_flag") (1 # 2) ;;
  s <- cell_add a b ;;
  cell_round2 s.

Definition compute_final_score (df : frame) : result frame :=
  if negb (subset_cols required_cols (columns df)) then
    inl (SchemaError "DataFrame must contain columns: {required_cols}")
  else
    let scored_df := df in
    risks <- mapM risk_of_row (rows scored_df) ;;
    ret (assign scored_df "hallucination_risk_score" risks).

(* ------------------------------------------------------------------ *)
(** ** [HallucinationScorer.generate_model_summary] *)

(** Order of group keys: [groupby] sorts them, numbers by value (-inf
    first, inf last), strings by code points, and (pandas' [safe_sort] of
    mixed keys) numbers before strings.  NaN keys are dropped
    ([dropna=True]). *)
Definition key_rank (a : cell) : nat :=
  match a with
  | CInf true => 0
  | CNum _ => 1
  | CInf false => 2
  | CStr _ => 3
  | CNaN => 4
  end.

Definition key_compare (a b : cell) : comparison :=
  match Nat.compare (key_rank a) (key_rank b) with
  | Eq =>
      match a, b with
      | CNum p, CNum q => Qcompare p q
      | CStr s, CStr t => String.compare s t
      | _, _ => Eq
      end
  | c => c
  end.

Definition same_key (a b : cell) : bool :=
  match key_compare a b with Eq => true | _ => false end.

(** The strict order on keys. *)
Definition key_lt (a b : cell) : Prop := key_compare a b = Lt.

(** Insert a key into a sorted list of distinct keys. *)
Fixpoint insert_key (k : cell) (ks : list cell) : list cell :=
  match ks with
  | [] => [k]
  | k' :: ks' =>
      match key_compare k k' with
      | Lt => k :: ks
      | Eq => ks
      | Gt => k' :: insert_key k ks'
      end
  end.

Definition add_key (ks : list cell) (r : row) : list cell :=
  let k := get r "model_name" in
  if is_nan k then ks else insert_key k ks.

Definition group_keys (rs : list row) : list cell := fold_left add_key rs [].

Definition group_rows (k : cell) (rs : list row) : list row :=
  filter (fun r => same_key (get r "model_name") k) rs.

(** Aggregation ["count"]: the non-missing values. *)
Definition agg_count (vs : list cell) : nat :=
  length (filter (fun v => negb (is_nan v)) vs).

(** [(x == lit).sum()] *)
Definition is_label (lit : string) (v : cell) : bool :=
  match v with CStr s => String.eqb s lit | _ => false end.

Definition agg_count_eq (lit : string) (vs : list cell) : nat :=
  length (filter (is_label lit) vs).

(** The running sum of pandas' [group_mean] over a float64 column: Kahan
    summation, whose compensation is reset to 0 when it is NaN. *)
Fixpoint kahan_sum (sumx comp : cell) (xs : list cell) : cell :=
  match xs with
  | [] => sumx
  | x :: xs' =>
      let y := f_sub x comp in
      let t := f_add sumx y in
      let comp' := f_sub (f_sub t sumx) y in
      kahan_sum t (if is_nan comp' then CNum 0 else comp') xs'
  end.

(** The sum of an [object] array (numpy's [add.reduce]): left to right. *)
Definition seq_sum (xs : list cell) : cell :=
  match xs with
  | [] => CNum 0
  | x :: xs' => fold_left f_add xs' x
  end.

(** Aggregation ["mean"] of one group's values; [obj] says whether the
    whole column has dtype [object], i.e. holds a string somewhere.  A
    string in the group raises.  A float64 column goes through
    [group_mean] (Kahan sum); an [object] column falls back to
    [Series.mean] per group, a left-to-right sum.  Either way NaN values
    are skipped, the sum is divided by the number of the others, and a
    group without any is NaN. *)
Definition agg_mean (obj : bool) (vs : list cell) : result cell :=
  if existsb is_str vs then inl TypeError
  else
    let xs := filter (fun v => negb (is_nan v)) vs in
    match length xs with
    | O => ret CNaN
    | n => ret (f_div (if obj then seq_sum xs else kahan_sum (CNum 0) (CNum 0) xs)
                      (f64_of_nat n))
    end.

Record ModelSummary : Type := mkSummary {
  model_name : cell;
  total_responses : nat;
  hallucinated_count : nat;
  uncertain_count : nat;
  avg_confidence_score : cell;
  avg_risk_score : cell;
  hallucination_rate : cell
}.

Definition column_of (c : string) (rs : list row) : list cell :=
  map (fun r => get r c) rs.

(** [(hallucinated_count / total_responses).round(2)]: int64 columns
    divided in float64, then rounded; [0 / 0] is NaN. *)
Definition rate (h t : nat) : cell := f_round2 (f_div (f64_of_nat h) (f64_of_nat t)).

Definition summarize_group (rs : list row) (k : cell) : result ModelSummary :=
  let g := group_rows k rs in
  let labels := column_of "final_label" g in
  let t := agg_count labels in
  let h := agg_count_eq "hallucinated" labels in
  let u := agg_count_eq "uncertain" labels in
  let obj c := existsb is_str (column_of c rs) in
  ac <- agg_mean (obj "confidence_score") (column_of "confidence_score" g) ;;
  ar <- agg_mean (obj "hallucination_risk_score") (column_of "hallucination_risk_score" g) ;;
  ret (mkSummary k t h u ac ar (rate h t)).

Definition agg_cols : list string :=
  [ "final_label"; "confidence_score"; "hallucination_risk_score" ].

(** The named aggregation first checks that its input columns exist. *)
Definition missing_col (cols : list string) : option string :=
  find (fun c => negb (has_col c cols)) agg_cols.

Definition generate_model_summary (df : frame) : result (list ModelSummary) :=
  if negb (has_col "model_name" (columns df)) then
    inl (SchemaError "Column 'model_name' is required")
  else
    match missing_col (columns df) with
    | Some c => inl (KeyError c)
    | None => mapM (summarize_group (rows df)) (group_keys (rows df))
    end.

(* ------------------------------------------------------------------ *)
(** ** The classification as the specification words it *)

(** Three independent contributions, summed, clamped at 1.0 with [Qmin],
    confidence [round(1 - score, 2)], then the label thresholds. *)
Definition spec_score (uncertain numeric short : bool) : Q :=
  ((if uncertain then 4 # 10 else 0) + (if numeric then 2 # 10 else 0)
   + (if short then 3 # 10 else 0))%Q.

Definition spec_classify (uncertain numeric short : bool) : Z * Q * string :=
  let score := Qmin (spec_score uncertain numeric short) 1 in
  let confidence := round2 (1 - score) in
  if Qle_bool (6 # 10) score then (1%Z, confidence, "hallucinated")
  else if Qle_bool (4 # 10) score && Qltb score (6 # 10) then (0%Z, confidence, "uncertain")
  else (0%Z, confidence, "accurate").

(* ------------------------------------------------------------------ *)
(** ** Concrete frames *)

(** The frame of [scoring.py]'s own [__main__] block. *)
Definition sample_frame : frame :=
  mkFrame ["model_name"; "hallucination_flag"; "confidence_score"; "final_label"]
    [ [("model_name", CStr "Model-A"); ("hallucination_flag", CNum 0);
       ("confidence_score", CNum (dbl (9 # 10))); ("final_label", CStr "accurate")];
      [("model_name", CStr "Model-A"); ("hallucination_flag", CNum 1);
       ("confidence_score", CNum (dbl (4 # 10))); ("final_label", CStr "hallucinated")];
      [("model_name", CStr "Model-B"); ("hallucination_flag", CNum 0);
       ("confidence_score", CNum (dbl (8 # 10))); ("final_label", CStr "uncertain")] ].

Definition sample_scored : frame :=
  match compute_final_score sample_frame with inr d => d | inl _ => sample_frame end.

Definition scored_row (m : string) (flag : Z) (conf : Q) (label : string) (risk : Q) : row :=
  [("model_name", CStr m); ("hallucination_flag", CNum (inject_Z flag));
   ("confidence_score", CNum (dbl conf)); ("final_label", CStr label);
   ("hallucination_risk_score", CNum (dbl risk))].

Definition scored_cols : list string :=
  ["model_name"; "hallucination_flag"; "confidence_score"; "final_label";
   "hallucination_risk_score"].



(** One row whose confidence and flag are both +inf. *)
Definition inf_frame : frame :=
  mkFrame ["model_name"; "hallucination_flag"; "confidence_score"; "final_label"]
    [ [("model_name", CStr "m"); ("hallucination_flag", CInf false);
       ("confidence_score", CInf false); ("final_label", CStr "accurate")] ].

Definition inf_scored : frame :=
  match compute_final_score inf_frame with inr d => d | inl _ => inf_frame end.

(** The summaries of a frame, [[]] when the call raises. *)
Definition summaries_of (df : frame) : list ModelSummary :=
  match generate_model_summary df with inr out => out | inl _ => [] end.

Definition sample_summaries : list ModelSummary := summaries_of sample_scored.

Definition sample_summary_a : ModelSummary :=
  nth 0 sample_summaries (mkSummary CNaN 0 0 0 CNaN CNaN CNaN).

(** One model, three answers, one of them hallucinated. *)
Definition thirds_frame : frame :=
  mkFrame scored_cols
    [ scored_row "m" 1 (10 # 100) "hallucinated" (140 # 100);
      scored_row "m" 0 (100 # 100) "accurate" 0;
      scored_row "m" 0 (70 # 100) "accurate" (30 # 100) ].

(** One model, forty answers, 23 of them hallucinated. *)
Definition rate_frame : frame :=
  mkFrame scored_cols
    (repeat (scored_row "m" 1 (10 # 100) "hallucinated" (140 # 100)) 23 ++
     repeat (scored_row "m" 0 (100 # 100) "accurate" 0) 17).

Definition rate_summary : ModelSummary :=
  nth 0 (summaries_of rate_frame) (mkSummary CNaN 0 0 0 CNaN CNaN CNaN).

(** One row whose [final_label] cell is missing. *)
Definition missing_label_frame : frame :=
  mkFrame scored_cols
    [ [("model_name", CStr "m"); ("hallucination_flag", CNum 0);
       ("confidence_score", CNum (dbl (70 # 100))); ("final_label", CNaN);
       ("hallucination_risk_score", CNum (dbl (30 # 100)))] ].

(** [model_name] present, the score columns absent. *)
Definition unscored_frame : frame :=
  mkFrame ["model_name"; "final_label"]
    [ [("model_name", CStr "m"); ("final_label", CStr "accurate")] ].

Definition labels : list string := ["accurate"; "uncertain"; "hallucinated"].

(* ------------------------------------------------------------------ *)
(** ** [DataLoader.clean_responses] ([src/data_loader.py]) *)

Module DataLoader.

(** [re.sub(r"\s+", " ", s)]: every maximal run of whitespace becomes one
    space; [in_run] records that the previous character was whitespace. *)
Fixpoint sub_ws (in_run : bool) (s : string) : string :=
  match s with
  | EmptyString => EmptyString
  | String c s' =>
      if is_space c then
        if in_run then sub_ws true s' else String " " (sub_ws true s')
      else String c (sub_ws false s')
  end.

(** [.astype(str).str.strip().str.replace(r"\s+", " ", regex=True)] *)
Definition clean_text (v : cell) : string := sub_ws false (strip (py_str v)).

(** [df["response_text"].str.len() > 10] *)
Definition long_enough (r : row) : bool :=
  match get r "response_text" with
  | CStr s => 10 <? String.length s
  | _ => false
  end.

Definition clean_responses (df : frame) : result frame :=
  if negb (has_col "response_text" (columns df)) then
    inl (SchemaError "Column 'response_text' is required")
  else
    let df := assign df "response_text"
                (map (fun r => CStr (clean_text (get r "response_text"))) (rows df)) in
    ret (mkFrame (columns df) (filter long_enough (rows df))).

End DataLoader.

(** A row with its cleaned text. *)
Definition cleaned_row (r : row) : row :=
  set r "response_text" (CStr (DataLoader.clean_text (get r "response_text"))).

(** Shape of a cleaned text: no whitespace at either end, and every
    whitespace character is a single space between two non-spaces. *)
Definition no_lead_ws (s : string) : Prop :=
  match s with
  | EmptyString => True
  | String c _ => is_space c = false
  end.

Definition no_trail_ws (s : string) : Prop :=
  forall s' c, s = s' ++ String c EmptyString -> is_space c = false.

Fixpoint single_spaces (prev_space : bool) (s : string) : bool :=
  match s with
  | EmptyString => true
  | String c s' =>
      if is_space c then negb prev_space && Ascii.eqb c " " && single_spaces true s'
      else single_spaces false s'
  end.

Definition clean_form (s : string) : Prop :=
  no_lead_ws s /\ no_trail_ws s /\ single_spaces false s = true.

(* ------------------------------------------------------------------ *)
(** ** The processing pipeline of [visualization.py]'s [__main__] *)

(** A row as [analyze_dataframe] leaves it. *)
Definition analyzed_row (r : row) : row :=
  let o := Detector.score_response (get r "response_text") in
  set (set (set r "hallucination_flag" (flag_cell o)) "confidence_score" (conf_cell o))
      "final_label" (label_cell o).

(** [clean_responses], [analyze_dataframe], [compute_final_score], then
    [generate_model_summary]; loading the CSV file is left out. *)
Definition pipeline (df : frame) : result (list ModelSummary) :=
  d <- DataLoader.clean_responses df ;;
  d <- analyze_dataframe d ;;
  d <- compute_final_score d ;;
  generate_model_summary d.

Definition responses_frame : frame :=
  mkFrame ["model_name"; "response_text"]
    [ [("model_name", CStr "Model-A");
       ("response_text", CStr "  I think it   might be around 5 years old. ")];
      [("model_name", CStr "Model-A"); ("response_text", CStr "Paris is the capital of France.")];
      [("model_name", CStr "Model-B"); ("response_text", CStr "Approximately 42 people")];
      [("model_name", CStr "Model-B"); ("response_text", CStr "Yes.")];
      [("model_name", CNaN); ("response_text", CNaN)] ].

(* ------------------------------------------------------------------ *)
(** ** [HallucinationVisualizer.plot_risk_score_by_label]: the box plot data *)






(** "Every character is whitespace". *)
Definition all_space (s : string) : Prop := any_char (fun c => negb (is_space c)) s = false.

(* ================================================================== *)
(** * Proofs *)

(* ------------------------------------------------------------------ *)
(** ** Rounding to binary64 is monotone *)

Section Binary64.
Local Open Scope Q_scope.

Lemma Qltb_iff x y : Qltb x y = true <-> x < y.
Proof.
  unfold Qltb. rewrite negb_true_iff. split.
  - intros H. apply Qnot_le_lt. intros H'. apply Qle_bool_iff in H'. congruence.
  - intros H. destruct (Qle_bool y x) eqn:E; [|reflexivity].
    apply Qle_bool_iff in E. exfalso. apply (Qlt_not_le _ _ H E).
Qed.

Lemma Qltb_false x y : Qltb x y = false <-> y <= x.
Proof.
  unfold Qltb. rewrite negb_false_iff. apply Qle_bool_iff.
Qed.

Lemma inject_Z_succ z : inject_Z (z + 1) == inject_Z z + 1.
Proof. rewrite inject_Z_plus. reflexivity. Qed.

Lemma rint_near y :
  inject_Z (rint y) - (1 # 2) <= y /\ y <= inject_Z (rint y) + (1 # 2).
Proof.
  pose proof (Qfloor_le y) as H1. pose proof (Qlt_floor y) as H2.
  rewrite inject_Z_succ in H2.
  unfold rint. set (f := Qfloor y) in *.
  destruct (Qltb (y - inject_Z f) (1 # 2)) eqn:E1.
  { apply Qltb_iff in E1. split; lra. }
  apply Qltb_false in E1.
  destruct (Qltb (1 # 2) (y - inject_Z f)) eqn:E2.
  { rewrite inject_Z_succ. split; lra. }
  apply Qltb_false in E2.
  destruct (Z.even f); [| rewrite inject_Z_succ]; split; lra.
Qed.

Lemma rint_int z : rint (inject_Z z) = z.
Proof.
  unfold rint. rewrite Qfloor_Z.
  replace (Qltb (inject_Z z - inject_Z z) (1 # 2)) with true; [reflexivity|].
  symmetry. apply Qltb_iff. lra.
Qed.

Lemma rint_comp x y : x == y -> rint x = rint y.
Proof.
  intros H. unfold rint. rewrite (Qfloor_comp x y H).
  set (f := Qfloor y).
  assert (Hr : x - inject_Z f == y - inject_Z f) by (rewrite H; reflexivity).
  assert (E1 : Qltb (x - inject_Z f) (1 # 2) = Qltb (y - inject_Z f) (1 # 2)).
  { unfold Qltb. f_equal. apply eq_true_iff_eq. rewrite !Qle_bool_iff, Hr. tauto. }
  assert (E2 : Qltb (1 # 2) (x - inject_Z f) = Qltb (1 # 2) (y - inject_Z f)).
  { unfold Qltb. f_equal. apply eq_true_iff_eq. rewrite !Qle_bool_iff, Hr. tauto. }
  rewrite E1, E2. reflexivity.
Qed.

Lemma rint_mono x y : x <= y -> (rint x <= rint y)%Z.
Proof.
  intros H. destruct (Z.le_gt_cases (rint x) (rint y)) as [|Hlt]; [assumption|].
  exfalso. pose proof (rint_near x) as [Hx1 Hx2]. pose proof (rint_near y) as [Hy1 Hy2].
  assert (Hz : inject_Z (rint y) + 1 <= inject_Z (rint x)).
  { rewrite <- inject_Z_succ. rewrite <- Zle_Qle. lia. }
  assert (Heq : x == y) by lra.
  rewrite (rint_comp x y Heq) in Hlt. lia.
Qed.

Lemma pow2_pos e : 0 < pow2 e.
Proof. apply Qpower_0_lt. reflexivity. Qed.

Lemma pow2_plus a b : pow2 (a + b) == pow2 a * pow2 b.
Proof. apply Qpower_plus. discriminate. Qed.

Lemma pow2_le a b : (a <= b)%Z -> pow2 a <= pow2 b.
Proof. intros H. apply Qpower_le_compat_l; [exact H | discriminate]. Qed.

Lemma pow2_lt a b : (a < b)%Z -> pow2 a < pow2 b.
Proof. intros H. apply Qpower_lt_compat_l; [exact H | reflexivity]. Qed.

Lemma pow2_le_inv a b : pow2 a <= pow2 b -> (a <= b)%Z.
Proof. intros H. apply (Qpower_le_compat_l_inv (2 # 1)); [exact H | reflexivity]. Qed.

Lemma pow2_Z n : (0 <= n)%Z -> pow2 n == inject_Z (2 ^ n).
Proof. intros H. unfold pow2. rewrite Zpower_Qpower by exact H. reflexivity. Qed.

Lemma qlog2_spec a : 0 < a -> pow2 (qlog2 a) <= a /\ a < pow2 (qlog2 a + 1).
Proof.
  intros Ha. destruct a as [n d].
  assert (Hn : (0 < n)%Z).
  { unfold Qlt in Ha. cbn in Ha. lia. }
  unfold qlog2. cbn [Qnum Qden].
  set (p := Z.log2 n). set (q := Z.log2 (Zpos d)).
  destruct (Z.log2_spec n Hn) as [Hp1 Hp2]. fold p in Hp1, Hp2.
  destruct (Z.log2_spec (Zpos d) eq_refl) as [Hq1 Hq2]. fold q in Hq1, Hq2.
  assert (Hp0 : (0 <= p)%Z) by apply Z.log2_nonneg.
  assert (Hq0 : (0 <= q)%Z) by apply Z.log2_nonneg.
  assert (Hnd : (n # d) == inject_Z n / inject_Z (Zpos d)) by apply Qmake_Qdiv.
  assert (Hd0 : 0 < inject_Z (Zpos d)) by (unfold Qlt; cbn; lia).
  assert (A : pow2 (p - q - 1) < (n # d)).
  { rewrite Hnd. apply Qlt_shift_div_l; [exact Hd0|].
    assert (E : pow2 (p - q - 1) * pow2 (q + 1) == pow2 p).
    { rewrite <- pow2_plus. replace (p - q - 1 + (q + 1))%Z with p by lia. reflexivity. }
    assert (Hlt : inject_Z (Zpos d) < pow2 (q + 1)).
    { rewrite pow2_Z by lia. rewrite <- Zlt_Qlt. unfold Z.succ in Hq2. exact Hq2. }
    assert (Hle : pow2 p <= inject_Z n) by (rewrite pow2_Z by lia; rewrite <- Zle_Qle; exact Hp1).
    pose proof (pow2_pos (p - q - 1)) as Hx.
    apply Qlt_le_trans with (pow2 (p - q - 1) * pow2 (q + 1)).
    - apply Qmult_lt_l; assumption.
    - rewrite E. exact Hle. }
  assert (B : (n # d) < pow2 (p - q + 1)).
  { rewrite Hnd. apply Qlt_shift_div_r; [exact Hd0|].
    assert (E : pow2 (p - q + 1) * pow2 q == pow2 (p + 1)).
    { rewrite <- pow2_plus. replace (p - q + 1 + q)%Z with (p + 1)%Z by lia. reflexivity. }
    assert (Hlt : inject_Z n < pow2 (p + 1)).
    { rewrite pow2_Z by lia. rewrite <- Zlt_Qlt. unfold Z.succ in Hp2. exact Hp2. }
    assert (Hle : pow2 q <= inject_Z (Zpos d)) by (rewrite pow2_Z by lia; rewrite <- Zle_Qle; exact Hq1).
    pose proof (pow2_pos (p - q + 1)) as Hx.
    apply Qlt_le_trans with (pow2 (p - q + 1) * pow2 q).
    - rewrite E. exact Hlt.
    - apply Qmult_le_l; assumption. }
  destruct (Qle_bool (pow2 (p - q)) (n # d)) eqn:E.
  - apply Qle_bool_iff in E. split; [exact E | exact B].
  - split.
    + apply Qlt_le_weak. exact A.
    + replace (p - q - 1 + 1)%Z with (p - q)%Z by lia.
      apply Qnot_le_lt. intros H. apply Qle_bool_iff in H. congruence.
Qed.

Lemma qlog2_mono a b : 0 < a -> a <= b -> (qlog2 a <= qlog2 b)%Z.
Proof.
  intros Ha Hab. destruct (qlog2_spec a Ha) as [Ha1 Ha2].
  destruct (qlog2_spec b (Qlt_le_trans _ _ _ Ha Hab)) as [Hb1 Hb2].
  assert (H : pow2 (qlog2 a) < pow2 (qlog2 b + 1)).
  { apply Qle_lt_trans with a; [exact Ha1|]. apply Qle_lt_trans with b; assumption. }
  apply Qpower_lt_compat_l_inv in H; [lia | reflexivity].
Qed.

Lemma rnd_pos_pos a : 0 < a ->
  rnd_pos a == inject_Z (rint (a / pow2 (ulp_exp a))) * pow2 (ulp_exp a).
Proof.
  intros Ha. unfold rnd_pos.
  destruct (Qle_bool a 0) eqn:E.
  - apply Qle_bool_iff in E. exfalso. apply (Qlt_not_le _ _ Ha E).
  - apply Qred_correct.
Qed.

Lemma rint_nonneg y : 0 <= y -> (0 <= rint y)%Z.
Proof. intros H. rewrite <- (rint_int 0). apply rint_mono. exact H. Qed.

Lemma rnd_pos_nonneg a : 0 <= rnd_pos a.
Proof.
  destruct (Qlt_le_dec 0 a) as [Ha|Ha].
  - rewrite (rnd_pos_pos a Ha). apply Qmult_le_0_compat; [|apply Qlt_le_weak, pow2_pos].
    change 0 with (inject_Z 0). rewrite <- Zle_Qle. apply rint_nonneg.
    apply Qle_shift_div_l; [apply pow2_pos|]. rewrite Qmult_0_l. apply Qlt_le_weak, Ha.
  - unfold rnd_pos. rewrite (proj2 (Qle_bool_iff a 0) Ha). apply Qle_refl.
Qed.

Lemma rnd_pos_mono a b : 0 <= a -> a <= b -> rnd_pos a <= rnd_pos b.
Proof.
  intros Ha Hab. destruct (Qlt_le_dec 0 a) as [Ha'|Ha'].
  2:{ unfold rnd_pos at 1. rewrite (proj2 (Qle_bool_iff a 0) Ha'). apply rnd_pos_nonneg. }
  assert (Hb : 0 < b) by (apply Qlt_le_trans with a; assumption).
  rewrite (rnd_pos_pos a Ha'), (rnd_pos_pos b Hb).
  pose proof (qlog2_mono a b Ha' Hab) as Hl.
  set (ea := ulp_exp a). set (eb := ulp_exp b).
  assert (He : (ea <= eb)%Z) by (unfold ea, eb, ulp_exp; lia).
  destruct (Z.eq_dec ea eb) as [Heq|Hne].
  - rewrite <- Heq. apply Qmult_le_compat_r; [|apply Qlt_le_weak, pow2_pos].
    rewrite <- Zle_Qle. apply rint_mono.
    apply Qmult_le_compat_r; [exact Hab|]. apply Qlt_le_weak, Qinv_lt_0_compat, pow2_pos.
  - assert (Heb : eb = (qlog2 b - 52)%Z) by (unfold ea, eb, ulp_exp in *; lia).
    destruct (qlog2_spec a Ha') as [_ Ha2]. destruct (qlog2_spec b Hb) as [Hb1 _].
    (* the rounded [a] is at most 2^(ea + 53) *)
    assert (R1 : inject_Z (rint (a / pow2 ea)) <= pow2 53).
    { rewrite (pow2_Z 53) by lia. rewrite <- Zle_Qle.
      rewrite <- (rint_int (2 ^ 53)). apply rint_mono.
      apply Qle_shift_div_r; [apply pow2_pos|]. rewrite <- (pow2_Z 53) by lia.
      rewrite <- pow2_plus. apply Qlt_le_weak. apply Qlt_le_trans with (pow2 (qlog2 a + 1)); [exact Ha2|].
      apply pow2_le. unfold ea, ulp_exp. lia. }
    assert (R2 : pow2 52 <= inject_Z (rint (b / pow2 eb))).
    { rewrite (pow2_Z 52) by lia. rewrite <- Zle_Qle.
      rewrite <- (rint_int (2 ^ 52)). apply rint_mono.
      apply Qle_shift_div_l; [apply pow2_pos|]. rewrite <- (pow2_Z 52) by lia.
      rewrite <- pow2_plus. rewrite Heb. replace (52 + (qlog2 b - 52))%Z with (qlog2 b) by lia.
      exact Hb1. }
    apply Qle_trans with (pow2 53 * pow2 ea).
    { apply Qmult_le_compat_r; [exact R1 | apply Qlt_le_weak, pow2_pos]. }
    apply Qle_trans with (pow2 52 * pow2 eb).
    { rewrite <- !pow2_plus. apply pow2_le. lia. }
    apply Qmult_le_compat_r; [exact R2 | apply Qlt_le_weak, pow2_pos].
Qed.

End Binary64.

Ltac case_checks t :=
  destruct (Detector.contains_uncertainty t), (Detector.has_numeric_claim t),
           (String.length t <? 30)%nat.

(** The clamp never fires: the three contributions sum to at most 0.9. *)
Lemma raw_score_le (t : string) : (Detector.raw_score t <= 9 # 10)%Q.
Proof.
  unfold Detector.raw_score; case_checks t; apply Qle_bool_imp_le; reflexivity.
Qed.

Lemma hallucination_score_unclamped (v : cell) :
  Detector.hallucination_score v = Detector.raw_score (Detector.normalize v).
Proof.
  unfold Detector.hallucination_score, Detector.py_min, Detector.raw_score.
  case_checks (Detector.normalize v); reflexivity.
Qed.

(** C1: [score_response] trims and lowercases its input, sums the three
    independent contributions (uncertainty phrase 0.4, digit 0.2, length
    under 30 0.3), clamps at 1.0, rounds [1 - score] to two places and
    reads flag and label off the thresholds 0.6 and 0.4. *)
Theorem score_response_spec (v : cell) :
  let t := lower (strip (py_str v)) in
  Detector.score_response v =
  spec_classify (Detector.contains_uncertainty t) (Detector.has_numeric_claim t)
                (String.length t <? 30)%nat.
Proof.
  cbv zeta.
  unfold Detector.score_response, Detector.hallucination_score, Detector.raw_score,
    Detector.normalize.
  case_checks (lower (strip (py_str v))); reflexivity.
Qed.

(** C2 (as the code has it): for "Approximately 42" the score is 0.9, the
    clamp does not fire, and the result is flag 1, confidence 0.10,
    "hallucinated". *)
Theorem approximately_42_result :
  (Detector.hallucination_score (CStr "Approximately 42") == 9 # 10)%Q /\
  Detector.score_response (CStr "Approximately 42") = (1%Z, 10 # 100, "hallucinated").
Proof. split; reflexivity. Qed.

(** C2 as stated fails: the score is not 1.0 and the confidence is not 0.00. *)
Theorem approximately_42_not_clamped :
  ~ ((Detector.hallucination_score (CStr "Approximately 42") == 1)%Q /\
     Detector.score_response (CStr "Approximately 42") = (1%Z, 0 # 100, "hallucinated")).
Proof. intros [H _]. vm_compute in H. discriminate H. Qed.

(** C8: [score_response] is a total function of the cell: every value gets
    a flag in {0,1}, a confidence in [0,1] and one of the three labels; a
    missing value (NaN, rendered "nan") and any text that strips to the
    empty string are classified exactly as the empty string. *)
Theorem score_response_total_and_empty (v : cell) (s : string) :
  (let '(f, c, l) := Detector.score_response v in
   (f = 0%Z \/ f = 1%Z) /\ (0 <= c <= 1)%Q /\ In l labels) /\
  Detector.score_response CNaN = Detector.score_response (CStr "") /\
  (strip s = "" -> Detector.score_response (CStr s) = Detector.score_response (CStr "")).
Proof.
  split; [|split].
  - unfold Detector.score_response, Detector.hallucination_score, Detector.raw_score.
    case_checks (Detector.normalize v); cbn -[labels];
      (split; [tauto | split; [split; apply Qle_bool_imp_le; reflexivity | cbn; tauto]]).
  - reflexivity.
  - intros H. unfold Detector.score_response, Detector.hallucination_score,
      Detector.normalize. cbn [py_str]. rewrite H. reflexivity.
Qed.

(** C9: the pre-clamp score is at most 0.9, the clamp never changes it, and
    the confidence is at least 0.10, so never 0.00. *)
Theorem confidence_at_least_tenth (v : cell) :
  (Detector.raw_score (Detector.normalize v) <= 9 # 10)%Q /\
  Detector.hallucination_score v = Detector.raw_score (Detector.normalize v) /\
  (let '(_, c, _) := Detector.score_response v in (10 # 100 <= c)%Q /\ ~ (c == 0)%Q).
Proof.
  split; [apply raw_score_le | split; [apply hallucination_score_unclamped |]].
  unfold Detector.score_response, Detector.hallucination_score, Detector.py_min,
    Detector.raw_score.
  case_checks (Detector.normalize v); cbn;
    (split; [apply Qle_bool_imp_le; reflexivity | discriminate]).
Qed.

(* ------------------------------------------------------------------ *)
(** ** Frames: columns, rows and the error monad *)

Lemma has_col_In (c : string) (cols : list string) :
  has_col c cols = true <-> In c cols.
Proof.
  unfold has_col. rewrite existsb_exists. split.
  - intros [x [Hx Heq]]. apply String.eqb_eq in Heq. subst. exact Hx.
  - intros H. exists c. split; [exact H | apply String.eqb_refl].
Qed.

Lemma subset_cols_In (req cols : list string) :
  subset_cols req cols = true <-> (forall c, In c req -> In c cols).
Proof.
  unfold subset_cols. rewrite forallb_forall. split.
  - intros H c Hc. apply has_col_In, H, Hc.
  - intros H c Hc. apply has_col_In, H, Hc.
Qed.

Lemma bind_inr {A B} (m : result A) (k : A -> result B) (b : B) :
  bind m k = inr b -> exists a, m = inr a /\ k a = inr b.
Proof. destruct m as [e|a]; cbn; [discriminate | eauto]. Qed.

Lemma bind_inl_ret {A B} (m : result A) (g : A -> B) (e : error) :
  bind m (fun a => ret (g a)) = inl e -> m = inl e.
Proof. destruct m; cbn; [intros H; injection H as ->; reflexivity | discriminate]. Qed.

Lemma mapM_Forall2 {A B} (f : A -> result B) (l : list A) (out : list B) :
  mapM f l = inr out -> Forall2 (fun a b => f a = inr b) l out.
Proof.
  revert out; induction l as [|a l IH]; intros out H; cbn in H.
  - injection H as <-. constructor.
  - apply bind_inr in H as [b [Hb H]].
    apply bind_inr in H as [bs [Hbs H]].
    injection H as <-. constructor; [exact Hb | apply IH, Hbs].
Qed.

Lemma mapM_In {A B} (f : A -> result B) (l : list A) (out : list B) (b : B) :
  mapM f l = inr out -> In b out -> exists a, In a l /\ f a = inr b.
Proof.
  intros H Hb. apply mapM_Forall2 in H.
  induction H as [|a b' l out Hab _ IH]; [contradiction|].
  destruct Hb as [<-|Hb]; [exists a; split; [left; reflexivity | exact Hab]|].
  destruct (IH Hb) as [a' [Ha' Hf]]. exists a'. split; [right; exact Ha' | exact Hf].
Qed.

Lemma get_set_eq (r : row) (c : string) (v : cell) : get (set r c v) c = v.
Proof.
  induction r as [|[k w] r IH]; cbn.
  - rewrite String.eqb_refl. reflexivity.
  - destruct (String.eqb k c) eqn:E; cbn; rewrite E; auto.
Qed.

Lemma get_set_neq (r : row) (c k : string) (v : cell) :
  k <> c -> get (set r c v) k = get r k.
Proof.
  intros Hne. induction r as [|[k' w] r IH]; cbn.
  - destruct (String.eqb c k) eqn:E; [apply String.eqb_eq in E; congruence | reflexivity].
  - destruct (String.eqb k' c) eqn:E; cbn.
    + apply String.eqb_eq in E. subst k'.
      destruct (String.eqb c k) eqn:E2; [apply String.eqb_eq in E2; congruence|].
      reflexivity.
    + destruct (String.eqb k' k); [reflexivity | exact IH].
Qed.

Lemma assign_rows_length (df : frame) (c : string) (vals : list cell) :
  length vals = length (rows df) ->
  length (rows (assign df c vals)) = length (rows df).
Proof.
  intros H. cbn. rewrite length_map, length_combine, H. apply Nat.min_id.
Qed.

Lemma assign_nth (df : frame) (c : string) (vals : list cell) (i : nat) (r : row) (v : cell) :
  nth_error (rows df) i = Some r -> nth_error vals i = Some v ->
  nth_error (rows (assign df c vals)) i = Some (set r c v).
Proof.
  cbn. generalize (rows df) as rs. revert vals.
  induction i as [|i IH]; intros [|v' vals] [|r' rs] Hr Hv; cbn in *;
    try discriminate.
  - injection Hr as ->. injection Hv as ->. reflexivity.
  - apply IH; assumption.
Qed.

Lemma assign_columns (df : frame) (c : string) (vals : list cell) :
  In c (columns (assign df c vals)) /\
  (forall k, In k (columns df) -> In k (columns (assign df c vals))).
Proof.
  cbn. destruct (has_col c (columns df)) eqn:E.
  - split; [apply has_col_In, E | auto].
  - split; [apply in_or_app; right; left; reflexivity |].
    intros k Hk. apply in_or_app. left. exact Hk.
Qed.

Lemma Forall2_nth_l {A B} (P : A -> B -> Prop) (l : list A) (l' : list B) (i : nat) (a : A) :
  Forall2 P l l' -> nth_error l i = Some a -> exists b, nth_error l' i = Some b /\ P a b.
Proof.
  intros H. revert i. induction H as [|x y l l' Hxy _ IH]; intros [|i] Hi; cbn in *;
    try discriminate.
  - injection Hi as ->. exists y. auto.
  - apply IH, Hi.
Qed.

Lemma mapM_inl {A B} (f : A -> result B) (l : list A) (e : error) :
  mapM f l = inl e -> exists a, In a l /\ f a = inl e.
Proof.
  induction l as [|a l IH]; cbn; [discriminate|].
  destruct (f a) as [e'|b] eqn:Ha; cbn.
  - intros H. injection H as ->. exists a. auto.
  - destruct (mapM f l) as [e'|bs]; cbn; [|discriminate].
    intros H. injection H as ->. destruct (IH eq_refl) as [a' [? ?]]. exists a'. auto.
Qed.

(** The float operations never produce a string. *)
Lemma to_f64_not_str (x : Q) : is_str (to_f64 x) = false.
Proof. unfold to_f64. destruct (Qle_bool _ _); reflexivity. Qed.

Lemma to_f64_not_nan (x : Q) : to_f64 x <> CNaN.
Proof. unfold to_f64. destruct (Qle_bool _ _); discriminate. Qed.

Lemma f_add_not_str (a b : cell) : is_str (f_add a b) = false.
Proof.
  destruct a, b; cbv [f_add]; try reflexivity; try apply to_f64_not_str.
  destruct (Bool.eqb _ _); reflexivity.
Qed.

Lemma f_sub_not_str (a b : cell) : is_str (f_sub a b) = false.
Proof. apply f_add_not_str. Qed.

Lemma f_mul_not_str (a b : cell) : is_str (f_mul a b) = false.
Proof.
  destruct a, b; cbv [f_mul]; try reflexivity; try apply to_f64_not_str;
    destruct (Qeq_bool _ _); reflexivity.
Qed.

Lemma f_div_not_str (a b : cell) : is_str (f_div a b) = false.
Proof.
  destruct a, b; cbv [f_div]; try reflexivity.
  destruct (Qeq_bool _ _); [destruct (Qeq_bool _ _); reflexivity | apply to_f64_not_str].
Qed.

Lemma f_round2_not_str (a : cell) : is_str (f_round2 a) = false.
Proof. apply f_div_not_str. Qed.

Lemma cell_sub_ok (a : Q) (c : cell) : is_str c = false -> cell_sub a c = ret (f_sub (CNum a) c).
Proof. destruct c; intros H; first [discriminate H | reflexivity]. Qed.

Lemma cell_mul_ok (c : cell) (a : Q) : is_str c = false -> cell_mul c a = ret (f_mul c (CNum a)).
Proof. destruct c; intros H; first [discriminate H | reflexivity]. Qed.

Lemma cell_add_ok (c d : cell) :
  is_str c = false -> is_str d = false -> cell_add c d = ret (f_add c d).
Proof. destruct c, d; intros H1 H2; first [discriminate H1 | discriminate H2 | reflexivity]. Qed.

Lemma cell_round2_ok (c : cell) : is_str c = false -> cell_round2 c = ret (f_round2 c).
Proof. destruct c; intros H; first [discriminate H | reflexivity]. Qed.

(** One row's risk: [TypeError] when either input is a string, the float64
    formula otherwise. *)
Lemma risk_of_row_eq (r : row) :
  risk_of_row r =
  if is_str (get r "confidence_score") || is_str (get r "hallucination_flag")
  then inl TypeError
  else inr (f_round2 (f_add (f_sub (CNum 1) (get r "confidence_score"))
                            (f_mul (get r "hallucination_flag") (CNum (1 # 2))))).
Proof.
  unfold risk_of_row.
  destruct (is_str (get r "confidence_score")) eqn:Ec.
  - destruct (get r "confidence_score"); try discriminate Ec. reflexivity.
  - rewrite (cell_sub_ok _ _ Ec). cbn [bind ret orb].
    destruct (is_str (get r "hallucination_flag")) eqn:Ef.
    + destruct (get r "hallucination_flag"); try discriminate Ef. reflexivity.
    + rewrite (cell_mul_ok _ _ Ef). cbn [bind ret].
      rewrite (cell_add_ok _ _ (f_sub_not_str _ _) (f_mul_not_str _ _)). cbn [bind ret].
      apply cell_round2_ok, f_add_not_str.
Qed.

(** Only arithmetic on a string cell fails while rows are scored. *)
Lemma risk_of_row_error (r : row) (e : error) : risk_of_row r = inl e -> e = TypeError.
Proof.
  rewrite risk_of_row_eq. destruct (_ || _); intros H; [injection H as <-; reflexivity | discriminate H].
Qed.

Lemma agg_mean_error (obj : bool) (vs : list cell) (e : error) :
  agg_mean obj vs = inl e -> e = TypeError.
Proof.
  unfold agg_mean. destruct (existsb is_str vs).
  - intros H. injection H as <-. reflexivity.
  - destruct (length _); discriminate.
Qed.

Lemma summarize_group_error (rs : list row) (k : cell) (e : error) :
  summarize_group rs k = inl e -> e = TypeError.
Proof.
  unfold summarize_group. cbv zeta.
  destruct (agg_mean _ (column_of "confidence_score" (group_rows k rs))) eqn:E1; cbn [bind].
  - intros H. injection H as ->. eapply agg_mean_error, E1.
  - destruct (agg_mean _ (column_of "hallucination_risk_score" (group_rows k rs))) eqn:E2;
      cbn [bind ret].
    + intros H. injection H as ->. eapply agg_mean_error, E2.
    + discriminate.
Qed.



Lemma analyze_rows (df : frame) :
  In "response_text" (columns df) ->
  exists df', analyze_dataframe df = inr df' /\
    length (rows df') = length (rows df) /\
    (forall i r, nth_error (rows df) i = Some r ->
     exists r', nth_error (rows df') i = Some r' /\
       get r' "final_label" = label_cell (Detector.score_response (get r "response_text"))).
Proof.
  intros H. unfold analyze_dataframe.
  apply has_col_In in H. rewrite H. cbn [negb].
  eexists. split; [reflexivity|]. split.
  - set (outs := map (fun r => Detector.score_response (get r "response_text")) (rows df)).
    assert (Lo : length outs = length (rows df)) by apply length_map.
    set (d1 := assign df "hallucination_flag" (map flag_cell outs)).
    assert (L1 : length (rows d1) = length (rows df))
      by (apply assign_rows_length; rewrite length_map; exact Lo).
    set (d2 := assign d1 "confidence_score" (map conf_cell outs)).
    assert (L2 : length (rows d2) = length (rows df))
      by (rewrite <- L1; apply assign_rows_length; rewrite length_map, L1; exact Lo).
    rewrite <- L2; apply assign_rows_length; rewrite length_map, L2; exact Lo.
  - intros i r Hi. eexists. split.
    + apply assign_nth; [apply assign_nth; [apply assign_nth; [exact Hi|] |] |];
        rewrite !nth_error_map, Hi; reflexivity.
    + apply get_set_eq.
Qed.

(** C6: each batch operation checks its required columns once, on the
    frame's column list alone, and raises the schema error exactly when one
    of them is absent; past the check no schema error is raised, and a
    successful call returns one processed row per input row. *)
Theorem batch_schema_checks (df : frame) :
  ((exists m, analyze_dataframe df = inl (SchemaError m)) <->
     ~ In "response_text" (columns df)) /\
  (In "response_text" (columns df) ->
     exists df', analyze_dataframe df = inr df' /\
       length (rows df') = length (rows df) /\
       (forall i r, nth_error (rows df) i = Some r ->
        exists r', nth_error (rows df') i = Some r' /\
          get r' "final_label" = label_cell (Detector.score_response (get r "response_text")))) /\
  ((exists m, compute_final_score df = inl (SchemaError m)) <->
     exists c, In c required_cols /\ ~ In c (columns df)) /\
  (forall df', compute_final_score df = inr df' ->
     length (rows df') = length (rows df) /\
     forall i r, nth_error (rows df) i = Some r ->
     exists r' v, nth_error (rows df') i = Some r' /\ risk_of_row r = inr v /\
       get r' "hallucination_risk_score" = v) /\
  ((exists m, generate_model_summary df = inl (SchemaError m)) <->
     ~ In "model_name" (columns df)).
Proof.
  split; [|split; [apply analyze_rows | split; [|split]]].
  - split.
    + intros [m Hm] Hin. destruct (analyze_rows df Hin) as [df' [Heq _]].
      congruence.
    + intros Hn. unfold analyze_dataframe.
      destruct (has_col "response_text" (columns df)) eqn:E.
      * apply has_col_In in E. contradiction.
      * eexists. reflexivity.
  - unfold compute_final_score. split.
    + intros [m Hm]. destruct (subset_cols required_cols (columns df)) eqn:E; cbn in Hm.
      * apply bind_inl_ret in Hm. apply mapM_inl in Hm as [r [_ Hr]].
        apply risk_of_row_error in Hr. discriminate.
      * unfold subset_cols in E. cbn in E.
        destruct (has_col "hallucination_flag" (columns df)) eqn:E1;
          [destruct (has_col "confidence_score" (columns df)) eqn:E2;
           [destruct (has_col "final_label" (columns df)) eqn:E3; [discriminate|] |] |].
        -- exists "final_label". split; [cbn; tauto|].
           rewrite <- has_col_In, E3. discriminate.
        -- exists "confidence_score". split; [cbn; tauto|].
           rewrite <- has_col_In, E2. discriminate.
        -- exists "hallucination_flag". split; [cbn; tauto|].
           rewrite <- has_col_In, E1. discriminate.
    + intros [c [Hc Hn]].
      destruct (subset_cols required_cols (columns df)) eqn:E.
      * exfalso. apply Hn. apply (proj1 (subset_cols_In _ _) E), Hc.
      * eexists. reflexivity.
  - intros df' H. unfold compute_final_score in H.
    destruct (subset_cols required_cols (columns df)); cbn in H; [|discriminate].
    apply bind_inr in H as [risks [Hr H]]. injection H as <-.
    apply mapM_Forall2 in Hr. split.
    + apply assign_rows_length. symmetry. eapply Forall2_length, Hr.
    + intros i r Hi. destruct (Forall2_nth_l _ _ _ _ _ Hr Hi) as [v [Hv Hrow]].
      exists (set r "hallucination_risk_score" v), v.
      split; [apply assign_nth; assumption |]. split; [exact Hrow | apply get_set_eq].
  - unfold generate_model_summary. split.
    + intros [m Hm] Hin. apply has_col_In in Hin. rewrite Hin in Hm. cbn [negb] in Hm.
      destruct (missing_col (columns df)); cbn in Hm; [congruence|].
      apply mapM_inl in Hm as [k [_ Hk]]. apply summarize_group_error in Hk. congruence.
    + intros Hn. destruct (has_col "model_name" (columns df)) eqn:E.
      * apply has_col_In in E. contradiction.
      * eexists. reflexivity.
Qed.

(* ------------------------------------------------------------------ *)
(** ** The order on group keys *)

Lemma key_compare_antisym (a b : cell) : key_compare a b = CompOpp (key_compare b a).
Proof.
  destruct a as [s|p|[]|], b as [t|q|[]|]; cbn; try reflexivity.
  - apply String.compare_antisym.
  - rewrite <- Qcompare_antisym. destruct (q ?= p)%Q; reflexivity.
Qed.

Lemma key_compare_refl (a : cell) : key_compare a a = Eq.
Proof.
  destruct a as [s|p|[]|]; cbn; try reflexivity.
  - apply String_as_OT.cmp_eq. reflexivity.
  - apply Qeq_alt. reflexivity.
Qed.

Lemma key_compare_eq_cong (a b c : cell) :
  key_compare a b = Eq -> key_compare a c = key_compare b c.
Proof.
  destruct a as [s|p|[]|], b as [t|q|[]|]; cbn; try discriminate; intros H; try reflexivity.
  - apply String_as_OT.cmp_eq in H. subst. reflexivity.
  - apply Qeq_alt in H. destruct c as [u|r|[]|]; cbn; try reflexivity.
    rewrite H. reflexivity.
Qed.

Lemma key_compare_lt_trans (a b c : cell) :
  key_compare a b = Lt -> key_compare b c = Lt -> key_compare a c = Lt.
Proof.
  destruct a as [s|p|[]|], b as [t|q|[]|], c as [u|r|[]|]; cbn; try discriminate; auto.
  - rewrite !(String_as_OT.cmp_lt). apply String_as_OT.lt_trans.
  - rewrite <- !Qlt_alt. apply Qlt_trans.
Qed.

Lemma insert_key_In (k x : cell) (ks : list cell) :
  In x (insert_key k ks) -> x = k \/ In x ks.
Proof.
  induction ks as [|k' ks IH]; cbn; [intros [<-|[]]; auto|].
  destruct (key_compare k k'); cbn.
  - auto.
  - intros [<-|H]; auto.
  - intros [<-|H]; auto. destruct (IH H); auto.
Qed.

Lemma insert_key_keeps (k x : cell) (ks : list cell) :
  In x ks -> In x (insert_key k ks).
Proof.
  induction ks as [|k' ks IH]; cbn; [contradiction|].
  destruct (key_compare k k'); cbn; intros [<-|H]; auto.
Qed.

Lemma insert_key_has (k : cell) (ks : list cell) :
  exists y, In y (insert_key k ks) /\ key_compare y k = Eq.
Proof.
  induction ks as [|k' ks IH]; cbn.
  - exists k. split; [left; reflexivity | apply key_compare_refl].
  - destruct (key_compare k k') eqn:E.
    + exists k'. split; [left; reflexivity|].
      rewrite key_compare_antisym, E. reflexivity.
    + exists k. split; [left; reflexivity | apply key_compare_refl].
    + destruct IH as [y [Hy Hyk]]. exists y. split; [right; exact Hy | exact Hyk].
Qed.

Lemma insert_key_sorted (k : cell) (ks : list cell) :
  StronglySorted key_lt ks -> StronglySorted key_lt (insert_key k ks).
Proof.
  induction 1 as [|k' ks Hs IH Hall]; cbn.
  - constructor; constructor.
  - destruct (key_compare k k') eqn:E.
    + constructor; assumption.
    + constructor; [constructor; assumption|].
      constructor; [exact E|].
      eapply Forall_impl; [|exact Hall].
      intros x Hx. eapply key_compare_lt_trans; [exact E | exact Hx].
    + constructor; [exact IH|].
      apply Forall_forall. intros x Hx.
      destruct (insert_key_In _ _ _ Hx) as [->|Hin].
      * unfold key_lt. rewrite key_compare_antisym, E. reflexivity.
      * rewrite Forall_forall in Hall. apply Hall, Hin.
Qed.

Lemma add_key_props (ks : list cell) (r : row) :
  StronglySorted key_lt ks -> (forall x, In x ks -> x <> CNaN) ->
  StronglySorted key_lt (add_key ks r) /\
  (forall x, In x (add_key ks r) -> x <> CNaN /\ (In x ks \/ x = get r "model_name")) /\
  (forall x, In x ks -> In x (add_key ks r)) /\
  (get r "model_name" <> CNaN ->
   exists y, In y (add_key ks r) /\ key_compare y (get r "model_name") = Eq).
Proof.
  intros Hs Hn. unfold add_key.
  destruct (get r "model_name") as [m|q|b|] eqn:E; cbn [is_nan];
    try (split; [exact Hs | split; [intros x Hx; split; auto | split; [auto | intros []; reflexivity]]]; fail).
  all: split; [apply insert_key_sorted, Hs|].
  all: split; [intros x Hx; destruct (insert_key_In _ _ _ Hx) as [->|Hin];
               [split; [discriminate | auto] | split; auto] |].
  all: split; [intros x Hx; apply insert_key_keeps, Hx | intros _; apply insert_key_has].
Qed.

Lemma group_keys_fold (rs : list row) (ks : list cell) :
  StronglySorted key_lt ks -> (forall x, In x ks -> x <> CNaN) ->
  StronglySorted key_lt (fold_left add_key rs ks) /\
  (forall x, In x (fold_left add_key rs ks) ->
     x <> CNaN /\ (In x ks \/ exists r, In r rs /\ get r "model_name" = x)) /\
  (forall x, In x ks -> In x (fold_left add_key rs ks)) /\
  (forall r, In r rs -> get r "model_name" <> CNaN ->
     exists y, In y (fold_left add_key rs ks) /\ key_compare y (get r "model_name") = Eq).
Proof.
  revert ks. induction rs as [|r rs IH]; intros ks Hs Hn; cbn [fold_left].
  - split; [exact Hs | split; [intros x Hx; auto | split; [auto | intros _ []]]].
  - destruct (add_key_props ks r Hs Hn) as [Hs' [Hin' [Hkeep' Hhas']]].
    assert (Hn' : forall x, In x (add_key ks r) -> x <> CNaN) by (intros x Hx; apply Hin', Hx).
    destruct (IH _ Hs' Hn') as [S1 [S2 [S3 S4]]].
    split; [exact S1|]. split; [|split].
    + intros x Hx. destruct (S2 x Hx) as [Hxn [Hx'|[r' [Hr' Heq]]]]; split; auto.
      * destruct (Hin' x Hx') as [_ [Hk|Hk]]; auto.
        right. exists r. split; [left; reflexivity | symmetry; exact Hk].
      * right. exists r'. split; [right; exact Hr' | exact Heq].
    + intros x Hx. apply S3, Hkeep', Hx.
    + intros r' [<-|Hr'] Hm.
      * destruct (Hhas' Hm) as [y [Hy Hyk]]. exists y. split; [apply S3, Hy | exact Hyk].
      * apply S4; assumption.
Qed.

Lemma group_keys_props (rs : list row) :
  StronglySorted key_lt (group_keys rs) /\
  (forall x, In x (group_keys rs) ->
     x <> CNaN /\ exists r, In r rs /\ get r "model_name" = x) /\
  (forall r, In r rs -> get r "model_name" <> CNaN ->
     exists y, In y (group_keys rs) /\ key_compare y (get r "model_name") = Eq).
Proof.
  destruct (group_keys_fold rs [] (SSorted_nil _) (fun x H => match H with end))
    as [S1 [S2 [_ S4]]].
  split; [exact S1 | split; [|exact S4]].
  intros x Hx. destruct (S2 x Hx) as [Hn [[]|H]]. auto.
Qed.

Lemma above_key_filter (y k : cell) (zs : list cell) :
  same_key y k = true -> Forall (key_lt y) zs ->
  filter (fun z => same_key z k) zs = [].
Proof.
  intros E Hall. induction Hall as [|z zs Hyz _ IH]; cbn; [reflexivity|].
  destruct (same_key z k) eqn:Ez; [|exact IH].
  exfalso. unfold same_key in E, Ez.
  destruct (key_compare y k) eqn:Eyk; try discriminate.
  destruct (key_compare z k) eqn:Ezk; try discriminate.
  unfold key_lt in Hyz. rewrite (key_compare_eq_cong _ _ _ Eyk) in Hyz.
  rewrite key_compare_antisym, Ezk in Hyz. discriminate.
Qed.

(** In a strictly sorted key list at most one key is equal to [k]. *)
Lemma sorted_keys_unique (ks : list cell) (k : cell) :
  StronglySorted key_lt ks -> length (filter (fun y => same_key y k) ks) <= 1.
Proof.
  induction 1 as [|y ys Hs IH Hall]; cbn; [lia|].
  destruct (same_key y k) eqn:E; cbn; [|exact IH].
  rewrite (above_key_filter y k ys E Hall). cbn. lia.
Qed.

(* ------------------------------------------------------------------ *)
(** ** The summaries *)

Lemma length_filter_map {A B} (p : B -> bool) (f : A -> B) (l : list A) :
  length (filter p (map f l)) = length (filter (fun x => p (f x)) l).
Proof.
  induction l as [|a l IH]; cbn; [reflexivity|]. destruct (p (f a)); cbn; auto.
Qed.

Lemma filter_all {A} (p : A -> bool) (l : list A) :
  (forall x, In x l -> p x = true) -> filter p l = l.
Proof.
  induction l as [|a l IH]; intros H; cbn; [reflexivity|].
  rewrite (H a (or_introl eq_refl)), IH; [reflexivity|]. intros x Hx. apply H. right. exact Hx.
Qed.

Lemma summarize_group_fields (rs : list row) (k : cell) (s : ModelSummary) :
  summarize_group rs k = inr s ->
  model_name s = k /\
  total_responses s = agg_count (column_of "final_label" (group_rows k rs)) /\
  hallucinated_count s = agg_count_eq "hallucinated" (column_of "final_label" (group_rows k rs)) /\
  uncertain_count s = agg_count_eq "uncertain" (column_of "final_label" (group_rows k rs)) /\
  hallucination_rate s = rate (hallucinated_count s) (total_responses s).
Proof.
  unfold summarize_group. cbv zeta.
  destruct (agg_mean _ (column_of "confidence_score" (group_rows k rs))); cbn [bind];
    [discriminate|].
  destruct (agg_mean _ (column_of "hallucination_risk_score" (group_rows k rs))); cbn [bind ret];
    [discriminate|].
  intros H. injection H as <-. cbn. auto 6.
Qed.

Lemma summary_Forall2 (df : frame) (out : list ModelSummary) :
  generate_model_summary df = inr out ->
  Forall2 (fun k s => summarize_group (rows df) k = inr s) (group_keys (rows df)) out.
Proof.
  unfold generate_model_summary.
  destruct (has_col "model_name" (columns df)); cbn [negb]; [|discriminate].
  destruct (missing_col (columns df)); [discriminate|]. apply mapM_Forall2.
Qed.

Lemma summary_In (df : frame) (out : list ModelSummary) (s : ModelSummary) :
  generate_model_summary df = inr out -> In s out ->
  In (model_name s) (group_keys (rows df)) /\ summarize_group (rows df) (model_name s) = inr s.
Proof.
  intros H Hs. apply summary_Forall2 in H.
  induction H as [|k s' ks out' Hk _ IH]; [contradiction|].
  destruct Hs as [<-|Hs].
  - destruct (summarize_group_fields _ _ _ Hk) as [-> _]. split; [left; reflexivity | exact Hk].
  - destruct (IH Hs) as [Hin Hg]. split; [right; exact Hin | exact Hg].
Qed.

Lemma summary_keys (df : frame) (out : list ModelSummary) :
  generate_model_summary df = inr out -> map model_name out = group_keys (rows df).
Proof.
  intros H. apply summary_Forall2 in H.
  induction H as [|k s ks out' Hk _ IH]; cbn; [reflexivity|].
  destruct (summarize_group_fields _ _ _ Hk) as [-> _]. rewrite IH. reflexivity.
Qed.

Lemma label_counts_le (vs : list cell) :
  agg_count_eq "hallucinated" vs + agg_count_eq "uncertain" vs <= agg_count vs.
Proof.
  unfold agg_count_eq, agg_count.
  induction vs as [|[t|q|b|] vs IH]; cbn; [lia | | lia | lia | exact IH].
  destruct (String.eqb t "hallucinated") eqn:E1, (String.eqb t "uncertain") eqn:E2; cbn;
    try lia.
  apply String.eqb_eq in E1, E2. subst. discriminate.
Qed.

(** C7: in every summary, [hallucinated_count + uncertain_count] is at most
    [total_responses]. *)
Theorem summary_counts_bounded (df : frame) (out : list ModelSummary) (s : ModelSummary) :
  generate_model_summary df = inr out -> In s out ->
  hallucinated_count s + uncertain_count s <= total_responses s.
Proof.
  intros H Hs. destruct (summary_In df out s H Hs) as [_ Hg].
  destruct (summarize_group_fields _ _ _ Hg) as [_ [-> [-> [-> _]]]].
  apply label_counts_le.
Qed.

Lemma summary_counts_bounded_witness :
  hallucinated_count sample_summary_a + uncertain_count sample_summary_a
  <= total_responses sample_summary_a.
Proof.
  apply (summary_counts_bounded sample_scored sample_summaries);
    [vm_compute; reflexivity | vm_compute; left; reflexivity].
Defined.

(** C4 (as the code has it): [hallucination_rate] is
    [(hallucinated_count / total_responses).round(2)]: the quotient of the
    two counts in float64, rounded as numpy does (multiply by 100, round
    half to even, divide by 100, each step in float64); it is NaN for a
    group without any labelled row. *)
Theorem hallucination_rate_rounded (df : frame) (out : list ModelSummary) (s : ModelSummary) :
  generate_model_summary df = inr out -> In s out ->
  (total_responses s = 0 -> hallucination_rate s = CNaN) /\
  (0 < total_responses s ->
   hallucination_rate s =
   f_round2 (f_div (f64_of_nat (hallucinated_count s)) (f64_of_nat (total_responses s)))).
Proof.
  intros H Hs. destruct (summary_In df out s H Hs) as [_ Hg].
  destruct (summarize_group_fields _ _ _ Hg) as [_ [Ht [Hh [Hu Hr]]]].
  rewrite Hr. split; [|reflexivity].
  intros H0. pose proof (label_counts_le (column_of "final_label" (group_rows (model_name s) (rows df)))).
  assert (hallucinated_count s = 0) as -> by lia. rewrite H0. reflexivity.
Qed.

(** Witness: 23 hallucinated answers out of 40 give the rate 0.57 (the
    double nearest 0.575 lies just below it). *)
Lemma hallucination_rate_rounded_witness :
  ((total_responses rate_summary = 0 -> hallucination_rate rate_summary = CNaN) /\
   (0 < total_responses rate_summary ->
    hallucination_rate rate_summary =
    f_round2 (f_div (f64_of_nat (hallucinated_count rate_summary))
                    (f64_of_nat (total_responses rate_summary))))) /\
  hallucinated_count rate_summary = 23 /\ total_responses rate_summary = 40 /\
  hallucination_rate rate_summary = CNum (dbl (57 # 100)).
Proof.
  split; [|vm_compute; auto].
  apply (hallucination_rate_rounded rate_frame (summaries_of rate_frame));
    [vm_compute; reflexivity | vm_compute; left; reflexivity].
Defined.

(** C4 as stated fails: one hallucinated answer out of three gives the
    rate 0.33 (as a double), not 1/3. *)
Theorem hallucination_rate_not_exact :
  match generate_model_summary thirds_frame with
  | inr [s] =>
      hallucinated_count s = 1 /\ total_responses s = 3 /\
      hallucination_rate s = CNum (dbl (33 # 100)) /\ ~ (dbl (33 # 100) == 1 # 3)%Q
  | _ => False
  end.
Proof.
  vm_compute. split; [reflexivity | split; [reflexivity | split; [reflexivity|]]].
  intros H. discriminate H.
Qed.

(** C5 (as the code has it): the summaries are sorted by key without
    duplicates; every non-missing [model_name] of the input has exactly
    one summary, and every summary comes from a row's [model_name]; rows
    whose [model_name] is missing belong to no group.  [total_responses]
    counts the group's rows whose [final_label] is not missing (all of them
    when no label is missing), and [hallucinated_count] /
    [uncertain_count] count the rows labelled "hallucinated" /
    "uncertain". *)
Theorem summary_one_per_model (df : frame) (out : list ModelSummary) :
  generate_model_summary df = inr out ->
  StronglySorted (fun s1 s2 => key_lt (model_name s1) (model_name s2)) out /\
  (forall r, In r (rows df) -> get r "model_name" <> CNaN ->
     length (filter (fun s => same_key (model_name s) (get r "model_name")) out) = 1) /\
  (forall s, In s out ->
     model_name s <> CNaN /\ exists r, In r (rows df) /\ get r "model_name" = model_name s) /\
  (forall s, In s out ->
     let g := group_rows (model_name s) (rows df) in
     total_responses s = length (filter (fun r => negb (is_nan (get r "final_label"))) g) /\
     ((forall r, In r g -> get r "final_label" <> CNaN) -> total_responses s = length g) /\
     hallucinated_count s = length (filter (fun r => is_label "hallucinated" (get r "final_label")) g) /\
     uncertain_count s = length (filter (fun r => is_label "uncertain" (get r "final_label")) g)).
Proof.
  intros H. pose proof (summary_keys df out H) as Hkeys.
  destruct (group_keys_props (rows df)) as [Hsort [Hfrom Hcover]].
  split; [|split; [|split]].
  - rewrite <- Hkeys in Hsort. clear -Hsort.
    induction out as [|s out IH]; [constructor|].
    inversion Hsort as [|? ? Hs Hall]; subst. constructor; [apply IH, Hs|].
    rewrite Forall_map in Hall. exact Hall.
  - intros r Hr Hn. rewrite <- (length_filter_map (fun y => same_key y (get r "model_name"))).
    rewrite Hkeys. apply Nat.le_antisymm; [apply sorted_keys_unique, Hsort|].
    destruct (Hcover r Hr Hn) as [y [Hy Hyk]].
    assert (Hin : In y (filter (fun y => same_key y (get r "model_name")) (group_keys (rows df))))
      by (apply filter_In; split; [exact Hy | unfold same_key; rewrite Hyk; reflexivity]).
    destruct (filter _ _); [contradiction | cbn; lia].
  - intros s Hs. apply Hfrom. rewrite <- Hkeys. apply in_map, Hs.
  - intros s Hs. cbv zeta. destruct (summary_In df out s H Hs) as [_ Hg].
    destruct (summarize_group_fields _ _ _ Hg) as [_ [Ht [Hh [Hu _]]]].
    unfold agg_count, agg_count_eq, column_of in *.
    rewrite length_filter_map in Ht, Hh, Hu.
    split; [exact Ht | split; [|split; [exact Hh | exact Hu]]].
    intros Hall. rewrite Ht, filter_all; [reflexivity|].
    intros r Hr. destruct (get r "final_label") eqn:E; [reflexivity | reflexivity | reflexivity |].
    exfalso. exact (Hall r Hr E).
Qed.

Lemma summary_one_per_model_witness :
  StronglySorted (fun s1 s2 => key_lt (model_name s1) (model_name s2)) sample_summaries /\
  (forall r, In r (rows sample_scored) -> get r "model_name" <> CNaN ->
     length (filter (fun s => same_key (model_name s) (get r "model_name")) sample_summaries) = 1) /\
  (forall s, In s sample_summaries ->
     model_name s <> CNaN /\
     exists r, In r (rows sample_scored) /\ get r "model_name" = model_name s) /\
  (forall s, In s sample_summaries ->
     let g := group_rows (model_name s) (rows sample_scored) in
     total_responses s = length (filter (fun r => negb (is_nan (get r "final_label"))) g) /\
     ((forall r, In r g -> get r "final_label" <> CNaN) -> total_responses s = length g) /\
     hallucinated_count s = length (filter (fun r => is_label "hallucinated" (get r "final_label")) g) /\
     uncertain_count s = length (filter (fun r => is_label "uncertain" (get r "final_label")) g)).
Proof.
  apply (summary_one_per_model sample_scored sample_summaries). vm_compute. reflexivity.
Defined.

(** C5 as stated fails: a group whose only row has a missing [final_label]
    has one row but [total_responses = 0]. *)
Theorem summary_total_skips_missing_label :
  length (group_rows (CStr "m") (rows missing_label_frame)) = 1 /\
  match generate_model_summary missing_label_frame with
  | inr [s] => model_name s = CStr "m" /\ total_responses s = 0
  | _ => False
  end.
Proof. vm_compute. auto. Qed.

(** C10: [generate_model_summary] checks only [model_name]; without
    [confidence_score] or [hallucination_risk_score] it passes that check
    and fails in the aggregation with a [KeyError], not the schema error. *)
Theorem summary_missing_score_column (df : frame) :
  In "model_name" (columns df) ->
  ~ In "confidence_score" (columns df) \/ ~ In "hallucination_risk_score" (columns df) ->
  exists c, generate_model_summary df = inl (KeyError c) /\
    In c agg_cols /\ ~ In c (columns df).
Proof.
  intros Hm Hmiss. unfold generate_model_summary.
  apply has_col_In in Hm. rewrite Hm. cbn [negb].
  destruct (missing_col (columns df)) as [c|] eqn:E.
  - apply find_some in E as [Hc Hn]. exists c. split; [reflexivity | split; [exact Hc|]].
    rewrite <- has_col_In. destruct (has_col c (columns df)); [discriminate Hn | discriminate].
  - exfalso. pose proof (find_none _ _ E) as Hnone.
    destruct Hmiss as [Hx|Hx]; apply Hx, has_col_In.
    + specialize (Hnone "confidence_score" (or_intror (or_introl eq_refl))).
      cbv beta in Hnone; destruct (has_col "confidence_score" (columns df)); [reflexivity | discriminate Hnone].
    + specialize (Hnone "hallucination_risk_score" (or_intror (or_intror (or_introl eq_refl)))).
      cbv beta in Hnone; destruct (has_col "hallucination_risk_score" (columns df)); [reflexivity | discriminate Hnone].
Qed.

Lemma summary_missing_score_column_witness :
  exists c, generate_model_summary unscored_frame = inl (KeyError c) /\
    In c agg_cols /\ ~ In c (columns unscored_frame).
Proof.
  apply summary_missing_score_column;
    [cbn; tauto | left; cbn; intros [H|[H|[]]]; discriminate H].
Defined.

(* ------------------------------------------------------------------ *)
(** ** Strings: reversal, stripping and whitespace runs *)

Lemma append_assoc (a b c : string) : a ++ (b ++ c) = (a ++ b) ++ c.
Proof. induction a as [|x a IH]; cbn; [reflexivity | rewrite IH; reflexivity]. Qed.

Lemma append_empty_r (a : string) : a ++ "" = a.
Proof. induction a as [|x a IH]; cbn; [reflexivity | rewrite IH; reflexivity]. Qed.

Lemma rev_str_acc (s acc : string) : rev_str s acc = rev_str s "" ++ acc.
Proof.
  revert acc. induction s as [|c s IH]; intros acc; cbn; [reflexivity|].
  rewrite IH, (IH (String c "")), <- append_assoc. reflexivity.
Qed.

Lemma rev_str_app (a b : string) : rev_str (a ++ b) "" = rev_str b "" ++ rev_str a "".
Proof.
  induction a as [|c a IH]; cbn.
  - rewrite append_empty_r. reflexivity.
  - rewrite (rev_str_acc (a ++ b)), (rev_str_acc a (String c "")), IH, append_assoc.
    reflexivity.
Qed.

Lemma rev_str_involutive (s : string) : rev_str (rev_str s "") "" = s.
Proof.
  induction s as [|c s IH]; cbn; [reflexivity|].
  rewrite (rev_str_acc s (String c "")), rev_str_app, IH. reflexivity.
Qed.

Lemma app_last_inj (a b : string) (c d : ascii) :
  a ++ String c "" = b ++ String d "" -> a = b /\ c = d.
Proof.
  revert b. induction a as [|x a IH]; intros [|y b] H; cbn in H.
  - injection H as ->. auto.
  - injection H as -> H. destruct b; discriminate H.
  - injection H as -> H. destruct a; discriminate H.
  - injection H as -> H. destruct (IH b H) as [-> ->]. auto.
Qed.

Lemma last_split (s : string) :
  s = "" \/ exists s' c, s = s' ++ String c "".
Proof.
  destruct (rev_str s "") as [|c z] eqn:E.
  - left. rewrite <- (rev_str_involutive s), E. reflexivity.
  - right. exists (rev_str z ""), c.
    rewrite <- (rev_str_involutive s), E. cbn. apply rev_str_acc.
Qed.

Lemma lstrip_split (s : string) : exists w, s = w ++ lstrip s.
Proof.
  induction s as [|c s IH]; cbn; [exists ""; reflexivity|].
  destruct (is_space c).
  - destruct IH as [w Hw]. exists (String c w). cbn. rewrite <- Hw. reflexivity.
  - exists "". reflexivity.
Qed.

Lemma lstrip_no_lead (s : string) : no_lead_ws (lstrip s).
Proof.
  induction s as [|c s IH]; cbn; [exact I|].
  destruct (is_space c) eqn:E; [exact IH | exact E].
Qed.

Lemma lstrip_id (s : string) : no_lead_ws s -> lstrip s = s.
Proof. destruct s as [|c s]; cbn; [reflexivity | intros ->; reflexivity]. Qed.

Lemma rstrip_no_trail (s : string) : no_trail_ws (rstrip s).
Proof.
  unfold rstrip. pose proof (lstrip_no_lead (rev_str s "")) as H.
  destruct (lstrip (rev_str s "")) as [|c z]; cbn; intros s' d Hs.
  - destruct s'; discriminate Hs.
  - cbn in H. rewrite rev_str_acc in Hs. symmetry in Hs.
    apply app_last_inj in Hs as [_ <-]. exact H.
Qed.

Lemma rstrip_prefix (s : string) : exists t, s = rstrip s ++ t.
Proof.
  unfold rstrip. destruct (lstrip_split (rev_str s "")) as [w Hw].
  exists (rev_str w ""). rewrite <- rev_str_app, <- Hw, rev_str_involutive. reflexivity.
Qed.

Lemma rstrip_no_lead (s : string) : no_lead_ws s -> no_lead_ws (rstrip s).
Proof.
  destruct (rstrip_prefix s) as [t Ht].
  destruct (rstrip s) as [|c z]; cbn; [auto|]. rewrite Ht. cbn. auto.
Qed.

Lemma rstrip_id (s : string) : no_trail_ws s -> rstrip s = s.
Proof.
  intros H. destruct (last_split s) as [->|[s' [c ->]]]; [reflexivity|].
  unfold rstrip. rewrite rev_str_app. cbn.
  rewrite (H s' c eq_refl). cbn.
  rewrite (rev_str_acc (rev_str s' "") (String c "")), rev_str_involutive. reflexivity.
Qed.

Lemma strip_ends (s : string) : no_lead_ws (strip s) /\ no_trail_ws (strip s).
Proof.
  unfold strip. split; [apply rstrip_no_lead, lstrip_no_lead | apply rstrip_no_trail].
Qed.

Lemma strip_id (s : string) : no_lead_ws s -> no_trail_ws s -> strip s = s.
Proof. intros Hl Ht. unfold strip. rewrite (lstrip_id s Hl). apply rstrip_id, Ht. Qed.

Lemma sub_ws_single (b : bool) (s : string) : single_spaces b (DataLoader.sub_ws b s) = true.
Proof.
  revert b. induction s as [|c s IH]; intros b; cbn; [reflexivity|].
  destruct (is_space c) eqn:E.
  - destruct b; [apply IH|]. cbn. apply IH.
  - cbn. rewrite E. apply IH.
Qed.

Lemma sub_ws_snoc (b : bool) (s : string) (c : ascii) :
  is_space c = false ->
  DataLoader.sub_ws b (s ++ String c "") = DataLoader.sub_ws b s ++ String c "".
Proof.
  intros Hc. revert b. induction s as [|x s IH]; intros b; cbn.
  - rewrite Hc. reflexivity.
  - destruct (is_space x); [destruct b|]; rewrite IH; reflexivity.
Qed.

Lemma sub_ws_ends (s : string) :
  no_lead_ws s -> no_trail_ws s ->
  no_lead_ws (DataLoader.sub_ws false s) /\ no_trail_ws (DataLoader.sub_ws false s).
Proof.
  intros Hl Ht. split.
  - destruct s as [|c s]; cbn in *; [exact I|]. rewrite Hl. exact Hl.
  - destruct (last_split s) as [->|[s' [c ->]]]; [intros s' d H; destruct s'; discriminate H|].
    rewrite sub_ws_snoc by (apply (Ht s' c eq_refl)).
    intros s'' d H. apply app_last_inj in H as [_ <-]. apply (Ht s' c eq_refl).
Qed.

Lemma sub_ws_id (b : bool) (s : string) : single_spaces b s = true -> DataLoader.sub_ws b s = s.
Proof.
  revert b. induction s as [|c s IH]; intros b H; cbn in *; [reflexivity|].
  destruct (is_space c).
  - destruct b; cbn in H; [discriminate|].
    apply andb_prop in H as [Hc Hs]. apply Ascii.eqb_eq in Hc. subst c.
    rewrite IH by exact Hs. reflexivity.
  - rewrite IH by exact H. reflexivity.
Qed.

Lemma clean_text_form (v : cell) : clean_form (DataLoader.clean_text v).
Proof.
  unfold DataLoader.clean_text, clean_form.
  destruct (strip_ends (py_str v)) as [Hl Ht].
  destruct (sub_ws_ends _ Hl Ht) as [Hl' Ht'].
  split; [exact Hl' | split; [exact Ht' | apply sub_ws_single]].
Qed.

Lemma clean_form_fixed (s : string) : clean_form s -> DataLoader.clean_text (CStr s) = s.
Proof.
  intros [Hl [Ht Hs]]. unfold DataLoader.clean_text. cbn [py_str].
  rewrite strip_id by assumption. apply sub_ws_id, Hs.
Qed.

(* ------------------------------------------------------------------ *)
(** ** [clean_responses] *)

Lemma assign_map_rows (df : frame) (c : string) (g : row -> cell) :
  rows (assign df c (map g (rows df))) = map (fun r => set r c (g r)) (rows df).
Proof.
  cbn. induction (rows df) as [|r rs IH]; cbn; [reflexivity | rewrite IH; reflexivity].
Qed.

Lemma assign_columns_present (df : frame) (c : string) (vals : list cell) :
  In c (columns df) -> columns (assign df c vals) = columns df.
Proof. intros H. cbn. apply has_col_In in H. rewrite H. reflexivity. Qed.

Lemma filter_map_comm {A B} (p : B -> bool) (f : A -> B) (l : list A) :
  filter p (map f l) = map f (filter (fun x => p (f x)) l).
Proof.
  induction l as [|a l IH]; cbn; [reflexivity|]. destruct (p (f a)); cbn; rewrite IH; reflexivity.
Qed.

Lemma set_set (r : row) (c : string) (v w : cell) : set (set r c v) c w = set r c w.
Proof.
  induction r as [|[k x] r IH]; cbn.
  - rewrite String.eqb_refl. reflexivity.
  - destruct (String.eqb k c) eqn:E; cbn; rewrite E; [reflexivity | rewrite IH; reflexivity].
Qed.

Lemma set_get_same (r : row) (c : string) (v : cell) :
  get r c = v -> v <> CNaN -> set r c v = r.
Proof.
  induction r as [|[k w] r IH]; cbn; intros Hg Hv; [congruence|].
  destruct (String.eqb k c) eqn:E.
  - subst w. apply String.eqb_eq in E. subst. reflexivity.
  - rewrite IH by assumption. reflexivity.
Qed.

Lemma clean_responses_ok (df : frame) :
  In "response_text" (columns df) ->
  exists df', DataLoader.clean_responses df = inr df' /\
    columns df' = columns df /\
    rows df' = map cleaned_row
                 (filter (fun r => 10 <? String.length (DataLoader.clean_text
                                                          (get r "response_text")))
                         (rows df)) /\
    forall r', In r' (rows df') ->
      exists s, get r' "response_text" = CStr s /\ 10 < String.length s /\ clean_form s.
Proof.
  intros Hin. unfold DataLoader.clean_responses.
  pose proof Hin as Hc. apply has_col_In in Hc. rewrite Hc. cbn [negb].
  eexists. split; [reflexivity|]. cbn [columns rows].
  split; [apply assign_columns_present, Hin|].
  rewrite assign_map_rows, filter_map_comm.
  assert (Hrows : forall r, DataLoader.long_enough (cleaned_row r) =
            (10 <? String.length (DataLoader.clean_text (get r "response_text")))).
  { intros r. unfold DataLoader.long_enough, cleaned_row. rewrite get_set_eq. reflexivity. }
  split.
  - f_equal. apply filter_ext. intros r. apply Hrows.
  - intros r' Hr'. apply in_map_iff in Hr' as [r [<- Hr]].
    apply filter_In in Hr as [_ Hlen].
    unfold DataLoader.long_enough in Hlen. rewrite get_set_eq in Hlen.
    exists (DataLoader.clean_text (get r "response_text")).
    split; [unfold cleaned_row; apply get_set_eq|].
    split; [apply Nat.ltb_lt, Hlen | apply clean_text_form].
Qed.

(** X1: [clean_responses] raises its schema error exactly when
    [response_text] is absent and otherwise always succeeds.  The result
    keeps the columns and, in order, exactly the input rows whose cleaned
    text is longer than 10 characters, with only [response_text] changed.
    Every kept text is a string longer than 10 characters with no
    whitespace at either end and with every whitespace character a single
    space. *)
Theorem clean_responses_rows (df : frame) :
  ((exists m, DataLoader.clean_responses df = inl (SchemaError m)) <->
     ~ In "response_text" (columns df)) /\
  (In "response_text" (columns df) ->
   exists df', DataLoader.clean_responses df = inr df' /\
     columns df' = columns df /\
     rows df' = map cleaned_row
                  (filter (fun r => 10 <? String.length (DataLoader.clean_text
                                                           (get r "response_text")))
                          (rows df)) /\
     forall r', In r' (rows df') ->
       exists s, get r' "response_text" = CStr s /\ 10 < String.length s /\ clean_form s).
Proof.
  split.
  - unfold DataLoader.clean_responses. split.
    + intros [m Hm] Hin. apply has_col_In in Hin. rewrite Hin in Hm. discriminate Hm.
    + intros Hn. destruct (has_col "response_text" (columns df)) eqn:E.
      * apply has_col_In in E. contradiction.
      * eexists. reflexivity.
  - apply clean_responses_ok.
Qed.

(** X2: cleaning is idempotent: cleaning an already cleaned frame returns it
    unchanged. *)
Theorem clean_responses_idempotent (df df' : frame) :
  DataLoader.clean_responses df = inr df' -> DataLoader.clean_responses df' = inr df'.
Proof.
  intros H. destruct (has_col "response_text" (columns df)) eqn:Hc.
  2:{ unfold DataLoader.clean_responses in H. rewrite Hc in H. discriminate H. }
  apply has_col_In in Hc.
  destruct (clean_responses_ok df Hc) as [d [Hd [Hcols [_ Hshape]]]].
  rewrite Hd in H. injection H as <-.
  unfold DataLoader.clean_responses.
  assert (Hc' : has_col "response_text" (columns d) = true)
    by (rewrite Hcols; apply has_col_In, Hc).
  rewrite Hc'. cbn [negb]. rewrite assign_columns_present by (apply has_col_In, Hc').
  rewrite assign_map_rows.
  assert (Hfix : forall r, In r (rows d) ->
            set r "response_text" (CStr (DataLoader.clean_text (get r "response_text"))) = r).
  { intros r Hr. destruct (Hshape r Hr) as [s [Hs [_ Hf]]].
    rewrite Hs, clean_form_fixed by exact Hf.
    apply set_get_same; [exact Hs | discriminate]. }
  rewrite (map_ext_in _ (fun r => r) (rows d) Hfix), map_id.
  rewrite filter_all; [destruct d; reflexivity|].
  intros r Hr. destruct (Hshape r Hr) as [s [Hs [Hlen _]]].
  unfold DataLoader.long_enough. rewrite Hs. apply Nat.ltb_lt, Hlen.
Qed.

(* ------------------------------------------------------------------ *)
(** ** The detector's decision table *)

(** X3: the label is a function of the three checks on the normalized text:
    "hallucinated" exactly when an uncertainty phrase occurs together with a
    digit or a length under 30; "uncertain" exactly for a phrase alone, or a
    digit in a short text without a phrase; the flag is 1 exactly for
    "hallucinated".  In particular a text without an uncertainty phrase is
    never "hallucinated". *)
Theorem score_response_table (v : cell) :
  let t := Detector.normalize v in
  let u := Detector.contains_uncertainty t in
  let d := Detector.has_numeric_claim t in
  let sh := (String.length t <? 30)%nat in
  let '(f, _, l) := Detector.score_response v in
  String.eqb l "hallucinated" = u && (d || sh) /\
  String.eqb l "uncertain" = (u && negb d && negb sh) || (negb u && d && sh) /\
  String.eqb l "accurate" = negb u && negb (d && sh) /\
  f = (if u && (d || sh) then 1 else 0)%Z.
Proof.
  cbv zeta. unfold Detector.score_response, Detector.hallucination_score, Detector.raw_score.
  case_checks (Detector.normalize v); cbn; auto.
Qed.

Lemma is_space_lower (c : ascii) : is_space (lower_char c) = is_space c.
Proof. destruct c as [[] [] [] [] [] [] [] []]; reflexivity. Qed.

Lemma lower_char_idem (c : ascii) : lower_char (lower_char c) = lower_char c.
Proof. destruct c as [[] [] [] [] [] [] [] []]; reflexivity. Qed.

Lemma lower_idem (s : string) : lower (lower s) = lower s.
Proof. induction s as [|c s IH]; cbn; [reflexivity | rewrite lower_char_idem, IH; reflexivity]. Qed.

Lemma lstrip_lower (s : string) : lstrip (lower s) = lower (lstrip s).
Proof.
  induction s as [|c s IH]; cbn; [reflexivity|].
  rewrite is_space_lower. destruct (is_space c); [exact IH | reflexivity].
Qed.

Lemma rev_str_lower (s acc : string) : rev_str (lower s) (lower acc) = lower (rev_str s acc).
Proof.
  revert acc. induction s as [|c s IH]; intros acc; cbn; [reflexivity|].
  apply (IH (String c acc)).
Qed.

Lemma strip_lower (s : string) : strip (lower s) = lower (strip s).
Proof.
  assert (H0 : forall x, rev_str (lower x) "" = lower (rev_str x ""))
    by (intros x; apply (rev_str_lower x "")).
  unfold strip, rstrip. rewrite lstrip_lower, H0, lstrip_lower, H0. reflexivity.
Qed.

Lemma strip_idem (s : string) : strip (strip s) = strip s.
Proof. destruct (strip_ends s) as [Hl Ht]. apply strip_id; assumption. Qed.

(** X4: the classification of a text ignores letter case and surrounding
    whitespace: lowercasing or stripping the input never changes the
    result. *)
Theorem score_response_case_space (s : string) :
  Detector.score_response (CStr (lower s)) = Detector.score_response (CStr s) /\
  Detector.score_response (CStr (strip s)) = Detector.score_response (CStr s).
Proof.
  assert (Hn : forall s', Detector.normalize (CStr s') = Detector.normalize (CStr s) ->
                 Detector.score_response (CStr s') = Detector.score_response (CStr s))
    by (intros s' H; unfold Detector.score_response, Detector.hallucination_score; rewrite H;
        reflexivity).
  split; apply Hn; unfold Detector.normalize; cbn [py_str].
  - rewrite strip_lower, lower_idem. reflexivity.
  - rewrite strip_idem. reflexivity.
Qed.

(* ------------------------------------------------------------------ *)
(** ** The pipeline *)

Lemma get_analyzed_row (r : row) :
  let o := Detector.score_response (get r "response_text") in
  get (analyzed_row r) "final_label" = label_cell o /\
  get (analyzed_row r) "confidence_score" = conf_cell o /\
  get (analyzed_row r) "hallucination_flag" = flag_cell o /\
  (forall k, k <> "final_label" -> k <> "confidence_score" -> k <> "hallucination_flag" ->
   get (analyzed_row r) k = get r k).
Proof.
  cbv zeta. unfold analyzed_row.
  split; [apply get_set_eq|].
  split; [rewrite get_set_neq by discriminate; apply get_set_eq|].
  split; [rewrite !get_set_neq by discriminate; apply get_set_eq|].
  intros k H1 H2 H3. rewrite !get_set_neq by assumption. reflexivity.
Qed.

(** The risk of an analysed row: a number in [0, 1.4], above 1 exactly for
    the label "hallucinated". *)
Lemma risk_of_analyzed (r : row) :
  exists l q, get (analyzed_row r) "final_label" = CStr l /\
    risk_of_row (analyzed_row r) = inr (CNum q) /\ In l labels /\
    String.eqb l "hallucinated" = Qltb 1 q /\ Qle_bool 0 q && Qle_bool q (7 # 5) = true.
Proof.
  destruct (get_analyzed_row r) as [Hl [Hc [Hf _]]].
  rewrite risk_of_row_eq, Hc, Hf, Hl.
  unfold Detector.score_response, Detector.hallucination_score, Detector.raw_score.
  case_checks (Detector.normalize (get r "response_text"));
    vm_compute; do 2 eexists; (split; [reflexivity|]); (split; [reflexivity|]);
    (split; [repeat first [left; reflexivity | right] | split; reflexivity]).
Qed.

Lemma assign_map_on {A} (d : frame) (l : list A) (h : A -> row) (c : string) (g : A -> cell) :
  rows d = map h l ->
  rows (assign d c (map g l)) = map (fun x => set (h x) c (g x)) l.
Proof.
  intros H. cbn. rewrite H. clear H.
  induction l as [|a l IH]; cbn; [reflexivity | rewrite IH; reflexivity].
Qed.

Lemma analyze_ok (df : frame) :
  In "response_text" (columns df) ->
  exists d1, analyze_dataframe df = inr d1 /\ rows d1 = map analyzed_row (rows df) /\
    (forall c, In c (columns df) -> In c (columns d1)) /\
    In "hallucination_flag" (columns d1) /\ In "confidence_score" (columns d1) /\
    In "final_label" (columns d1).
Proof.
  intros H. unfold analyze_dataframe. apply has_col_In in H. rewrite H. cbn [negb].
  eexists. split; [reflexivity|]. split.
  - pose (o := fun r => Detector.score_response (get r "response_text")).
    change (map (fun r => Detector.score_response (get r "response_text")) (rows df))
      with (map o (rows df)).
    rewrite map_map, (map_map o conf_cell), (map_map o label_cell).
    rewrite (assign_map_on _ (rows df)
               (fun r => set (set r "hallucination_flag" (flag_cell (o r)))
                           "confidence_score" (conf_cell (o r)))); [reflexivity|].
    rewrite (assign_map_on _ (rows df)
               (fun r => set r "hallucination_flag" (flag_cell (o r)))); [reflexivity|].
    apply assign_map_rows.
  - set (d1 := assign df "hallucination_flag" _).
    set (d2 := assign d1 "confidence_score" _).
    destruct (assign_columns df "hallucination_flag"
                (map flag_cell (map (fun r => Detector.score_response (get r "response_text"))
                                  (rows df)))) as [A1 B1].
    destruct (assign_columns d1 "confidence_score"
                (map conf_cell (map (fun r => Detector.score_response (get r "response_text"))
                                  (rows df)))) as [A2 B2].
    destruct (assign_columns d2 "final_label"
                (map label_cell (map (fun r => Detector.score_response (get r "response_text"))
                                  (rows df)))) as [A3 B3].
    fold d1 in A1, B1. fold d2 in A2, B2.
    split; [intros c Hc; apply B3, B2, B1, Hc|].
    split; [apply B3, B2, A1 | split; [apply B3, A2 | exact A3]].
Qed.

Lemma mapM_total {A B} (f : A -> result B) (l : list A) :
  (forall a, In a l -> exists b, f a = inr b) -> exists out, mapM f l = inr out.
Proof.
  induction l as [|a l IH]; intros H; cbn; [eexists; reflexivity|].
  destruct (H a (or_introl eq_refl)) as [b Hb]. rewrite Hb. cbn.
  destruct IH as [out Hout]; [intros x Hx; apply H; right; exact Hx|].
  rewrite Hout. eexists. reflexivity.
Qed.

Lemma Forall2_combine_In {A B} (P : A -> B -> Prop) (l : list A) (l' : list B) (a : A) (b : B) :
  Forall2 P l l' -> In (a, b) (combine l l') -> P a b.
Proof.
  induction 1 as [|x y l l' Hxy _ IH]; cbn; [contradiction|].
  intros [H|H]; [injection H as -> ->; exact Hxy | apply IH, H].
Qed.

Lemma compute_final_score_ok (d : frame) :
  subset_cols required_cols (columns d) = true ->
  (forall r, In r (rows d) -> exists v, risk_of_row r = inr v) ->
  exists d2, compute_final_score d = inr d2 /\
    length (rows d2) = length (rows d) /\
    (forall c, In c (columns d) -> In c (columns d2)) /\
    In "hallucination_risk_score" (columns d2) /\
    (forall r', In r' (rows d2) ->
       exists r v, In r (rows d) /\ risk_of_row r = inr v /\
                   r' = set r "hallucination_risk_score" v).
Proof.
  intros Hs Hr. unfold compute_final_score. rewrite Hs. cbn [negb].
  destruct (mapM_total risk_of_row (rows d) Hr) as [risks Hm]. rewrite Hm. cbn.
  pose proof (mapM_Forall2 _ _ _ Hm) as HF.
  eexists. split; [reflexivity|].
  destruct (assign_columns d "hallucination_risk_score" risks) as [A1 B1].
  split; [apply assign_rows_length; symmetry; eapply Forall2_length, HF|].
  split; [exact B1 | split; [exact A1|]].
  intros r' Hr'. cbn in Hr'. apply in_map_iff in Hr' as [[r v] [<- Hin]].
  exists r, v. split; [apply (in_combine_l _ _ _ _ Hin)|].
  split; [apply (Forall2_combine_In _ _ _ _ _ HF Hin) | reflexivity].
Qed.

(** A frame after [analyze_dataframe] and [compute_final_score]. *)
Lemma analyze_score_ok (df : frame) :
  In "response_text" (columns df) ->
  exists d2, bind (analyze_dataframe df) compute_final_score = inr d2 /\
    length (rows d2) = length (rows df) /\
    (forall c, In c (columns df) -> In c (columns d2)) /\
    In "final_label" (columns d2) /\ In "confidence_score" (columns d2) /\
    In "hallucination_risk_score" (columns d2) /\
    (forall r', In r' (rows d2) ->
       exists r l q, In r (rows df) /\
         get r' "final_label" = CStr l /\
         get r' "confidence_score" = conf_cell (Detector.score_response (get r "response_text")) /\
         get r' "hallucination_risk_score" = CNum q /\
         get r' "model_name" = get r "model_name" /\
         In l labels /\ String.eqb l "hallucinated" = Qltb 1 q /\
         Qle_bool 0 q && Qle_bool q (7 # 5) = true).
Proof.
  intros H. destruct (analyze_ok df H) as [d1 [Ha [Hrows [Hcols [Hf [Hc Hl]]]]]].
  rewrite Ha. cbn [bind].
  destruct (compute_final_score_ok d1) as [d2 [Hd2 [Hlen [Hcols2 [Hrisk Hrow]]]]].
  - apply subset_cols_In. intros c [<-|[<-|[<-|[]]]]; assumption.
  - intros r Hr. rewrite Hrows in Hr. apply in_map_iff in Hr as [r0 [<- _]].
    destruct (risk_of_analyzed r0) as [l [q [_ [Hq _]]]]. eauto.
  - exists d2. split; [exact Hd2|]. split; [rewrite Hlen, Hrows; apply length_map|].
    split; [intros c Hc'; apply Hcols2, Hcols, Hc'|].
    split; [apply Hcols2, Hl | split; [apply Hcols2, Hc | split; [exact Hrisk|]]].
    intros r' Hr'. destruct (Hrow r' Hr') as [r [v [Hr [Hv ->]]]].
    rewrite Hrows in Hr. apply in_map_iff in Hr as [r0 [<- Hr0]].
    destruct (risk_of_analyzed r0) as [l [q [Hl0 [Hq [Hin [Heq Hb]]]]]].
    rewrite Hq in Hv. injection Hv as <-.
    destruct (get_analyzed_row r0) as [_ [Hc0 [_ Hother]]].
    exists r0, l, q. split; [exact Hr0|].
    rewrite !get_set_neq by discriminate. rewrite get_set_eq.
    split; [exact Hl0 | split; [exact Hc0 | split; [reflexivity|]]].
    split; [rewrite get_set_neq by discriminate; apply Hother; discriminate|].
    split; [exact Hin | split; assumption].
Qed.

(** X5: on a frame with a [response_text] column, [analyze_dataframe]
    followed by [compute_final_score] never fails and keeps every row; each
    scored row has a label among the three and a risk score in [0, 1.4],
    and the risk score exceeds 1 exactly when the label is
    "hallucinated". *)
Theorem analyze_then_score (df : frame) :
  In "response_text" (columns df) ->
  exists d2, bind (analyze_dataframe df) compute_final_score = inr d2 /\
    length (rows d2) = length (rows df) /\
    forall r', In r' (rows d2) ->
      exists l q, get r' "final_label" = CStr l /\ get r' "hallucination_risk_score" = CNum q /\
        In l labels /\ (l = "hallucinated" <-> (1 < q)%Q) /\ (0 <= q <= 7 # 5)%Q.
Proof.
  intros H. destruct (analyze_score_ok df H) as [d2 [Hd [Hlen [_ [_ [_ [_ Hrow]]]]]]].
  exists d2. split; [exact Hd | split; [exact Hlen|]].
  intros r' Hr'. destruct (Hrow r' Hr') as [r [l [q [_ [Hl [_ [Hq [_ [Hin [Heq Hb]]]]]]]]]].
  exists l, q. split; [exact Hl | split; [exact Hq | split; [exact Hin|]]].
  apply andb_prop in Hb as [H0 H1]. apply Qle_bool_iff in H0, H1.
  split; [|split; assumption].
  rewrite <- String.eqb_eq, Heq. unfold Qltb.
  split.
  - intros Hn. apply Qnot_le_lt. intros Hle. apply Qle_bool_iff in Hle. rewrite Hle in Hn.
    discriminate.
  - intros Hlt. destruct (Qle_bool q 1) eqn:E; [|reflexivity].
    apply Qle_bool_iff in E. exfalso. apply (Qlt_not_le _ _ Hlt E).
Qed.

Lemma analyze_then_score_witness :
  exists d2, bind (analyze_dataframe responses_frame) compute_final_score = inr d2 /\
    length (rows d2) = length (rows responses_frame) /\
    forall r', In r' (rows d2) ->
      exists l q, get r' "final_label" = CStr l /\ get r' "hallucination_risk_score" = CNum q /\
        In l labels /\ (l = "hallucinated" <-> (1 < q)%Q) /\ (0 <= q <= 7 # 5)%Q.
Proof. apply analyze_then_score. cbn. tauto. Defined.

Lemma clean_responses_idempotent_witness :
  exists d, DataLoader.clean_responses responses_frame = inr d /\
            DataLoader.clean_responses d = inr d.
Proof.
  eexists. split; [vm_compute; reflexivity|].
  apply (clean_responses_idempotent responses_frame). vm_compute. reflexivity.
Defined.

(* ------------------------------------------------------------------ *)
(** ** The whole pipeline *)

Lemma rint_bounds (a b : Z) (y : Q) :
  (inject_Z a <= y <= inject_Z b)%Q -> (a <= rint y <= b)%Z.
Proof.
  intros [Ha Hb]. unfold rint.
  pose proof (Qfloor_le y) as F1. pose proof (Qlt_floor y) as F2.
  assert (La : (a <= Qfloor y)%Z).
  { rewrite <- (Qfloor_Z a). apply Qfloor_resp_le, Ha. }
  assert (Lb : (Qfloor y <= b)%Z).
  { rewrite <- (Qfloor_Z b). apply Qfloor_resp_le, Hb. }
  assert (Hstep : (0 < y - inject_Z (Qfloor y))%Q -> (Qfloor y + 1 <= b)%Z).
  { intros Hp. destruct (Z.eq_dec (Qfloor y) b) as [E|E]; [|lia].
    exfalso. rewrite E in Hp. lra. }
  destruct (Qltb (y - inject_Z (Qfloor y)) (1 # 2)) eqn:E1; [lia|].
  unfold Qltb in E1. apply negb_false_iff, Qle_bool_iff in E1.
  assert (Hp : (0 < y - inject_Z (Qfloor y))%Q) by lra.
  specialize (Hstep Hp).
  destruct (Qltb (1 # 2) (y - inject_Z (Qfloor y))); [lia|].
  destruct (Z.even (Qfloor y)); lia.
Qed.

(** A result in [0, m] rounds into [0, m] when [m] is a double. *)
Lemma to_f64_range (x m : Q) :
  (0 <= x)%Q -> (x <= m)%Q -> (rnd_pos m == m)%Q -> (m < pow2 1024)%Q ->
  exists y, to_f64 x = CNum y /\ (0 <= y)%Q /\ (y <= m)%Q.
Proof.
  intros H0 Hm Hr Hb. unfold to_f64, dbl.
  rewrite (proj2 (Qle_bool_iff 0 x) H0).
  assert (L0 : (0 <= rnd_pos x)%Q) by apply rnd_pos_nonneg.
  assert (L1 : (rnd_pos x <= m)%Q).
  { apply Qle_trans with (rnd_pos m); [apply rnd_pos_mono; assumption | rewrite Hr; apply Qle_refl]. }
  destruct (Qle_bool (pow2 1024) (Qabs (rnd_pos x))) eqn:E.
  - apply Qle_bool_iff in E. rewrite Qabs_pos in E by exact L0. exfalso. lra.
  - exists (rnd_pos x). auto.
Qed.

(** [Series.round(2)] keeps a number of [0, 1] in [0, 1]. *)
Lemma f_round2_unit (x : Q) :
  (0 <= x <= 1)%Q -> exists y, f_round2 (CNum x) = CNum y /\ (0 <= y <= 1)%Q.
Proof.
  intros [H0 H1]. unfold f_round2. cbv [f_mul].
  destruct (to_f64_range (x * 100) 100) as [y [Ey [Y0 Y1]]];
    [lra | lra | vm_compute; reflexivity | apply Qlt_alt; vm_compute; reflexivity |].
  rewrite Ey. cbv [f_rint f_div].
  replace (Qeq_bool 100 0) with false by reflexivity.
  assert (R : (0 <= rint y <= 100)%Z) by (apply rint_bounds; split; assumption).
  destruct (to_f64_range (inject_Z (rint y) / 100) 1) as [z [Ez [Z0 Z1]]].
  - apply Qle_shift_div_l; [apply Qlt_alt; reflexivity|].
    rewrite Qmult_0_l. change 0%Q with (inject_Z 0). rewrite <- Zle_Qle. lia.
  - apply Qle_shift_div_r; [apply Qlt_alt; reflexivity|].
    change (1 * 100)%Q with (inject_Z 100). rewrite <- Zle_Qle. lia.
  - vm_compute. reflexivity.
  - apply Qlt_alt. vm_compute. reflexivity.
  - exists z. split; [exact Ez | split; assumption].
Qed.

Lemma no_str_existsb (vs : list cell) :
  (forall v, In v vs -> is_str v = false) -> existsb is_str vs = false.
Proof.
  intros H. destruct (existsb is_str vs) eqn:E; [|reflexivity].
  apply existsb_exists in E as [v [Hv Hs]]. rewrite H in Hs by exact Hv. discriminate.
Qed.

Lemma agg_mean_ok (obj : bool) (vs : list cell) :
  existsb is_str vs = false -> exists m, agg_mean obj vs = inr m.
Proof. intros H. unfold agg_mean. rewrite H. destruct (length _); eexists; reflexivity. Qed.

Lemma missing_col_none (cols : list string) :
  (forall c, In c agg_cols -> In c cols) -> missing_col cols = None.
Proof.
  intros H. unfold missing_col, agg_cols. cbn [find].
  rewrite !(proj2 (has_col_In _ _)) by (apply H; cbn; tauto). reflexivity.
Qed.

Lemma summarize_group_means (rs : list row) (k : cell) (s : ModelSummary) :
  summarize_group rs k = inr s ->
  agg_mean (existsb is_str (column_of "confidence_score" rs))
    (column_of "confidence_score" (group_rows k rs)) = inr (avg_confidence_score s) /\
  agg_mean (existsb is_str (column_of "hallucination_risk_score" rs))
    (column_of "hallucination_risk_score" (group_rows k rs)) = inr (avg_risk_score s).
Proof.
  unfold summarize_group. cbv beta zeta.
  destruct (agg_mean _ (column_of "confidence_score" (group_rows k rs))); cbn [bind];
    [discriminate|].
  destruct (agg_mean _ (column_of "hallucination_risk_score" (group_rows k rs))); cbn [bind ret];
    [discriminate|].
  intros H. injection H as <-. cbn. auto.
Qed.

Lemma group_nonempty (rs : list row) (k : cell) :
  In k (group_keys rs) -> exists r, In r (group_rows k rs) /\ get r "model_name" = k.
Proof.
  intros Hk. destruct (group_keys_props rs) as [_ [Hin _]].
  destruct (Hin k Hk) as [_ [r [Hr Heq]]]. exists r. split; [|exact Heq].
  apply filter_In. split; [exact Hr|]. rewrite Heq. unfold same_key.
  rewrite key_compare_refl. reflexivity.
Qed.

Lemma agg_count_pos (vs : list cell) (v : cell) :
  In v vs -> is_nan v = false -> 1 <= agg_count vs.
Proof.
  unfold agg_count. induction vs as [|w vs IH]; intros Hv Hn; [destruct Hv|].
  destruct Hv as [<-|Hv]; cbn; [rewrite Hn; cbn; lia|].
  destruct (negb (is_nan w)); cbn; [lia | apply IH; assumption].
Qed.

Lemma rate_unit (h t : nat) :
  1 <= t -> h <= t -> exists q, rate h t = CNum q /\ (0 <= q <= 1)%Q.
Proof.
  intros Ht Hh. unfold rate, f64_of_nat, dbl.
  assert (A0 : (0 <= inject_Z (Z.of_nat h))%Q)
    by (change 0%Q with (inject_Z 0); rewrite <- Zle_Qle; lia).
  assert (B1 : (1 <= inject_Z (Z.of_nat t))%Q)
    by (change 1%Q with (inject_Z 1); rewrite <- Zle_Qle; lia).
  assert (AB : (inject_Z (Z.of_nat h) <= inject_Z (Z.of_nat t))%Q)
    by (rewrite <- Zle_Qle; lia).
  rewrite (proj2 (Qle_bool_iff _ _) A0), (proj2 (Qle_bool_iff _ _) (Qle_trans _ _ _ A0 AB)).
  assert (Ha0 : (0 <= rnd_pos (inject_Z (Z.of_nat h)))%Q) by apply rnd_pos_nonneg.
  assert (Hab : (rnd_pos (inject_Z (Z.of_nat h)) <= rnd_pos (inject_Z (Z.of_nat t)))%Q)
    by (apply rnd_pos_mono; assumption).
  assert (Hb : (1 <= rnd_pos (inject_Z (Z.of_nat t)))%Q).
  { apply Qle_trans with (rnd_pos 1); [apply Qle_bool_iff; vm_compute; reflexivity|].
    apply rnd_pos_mono; [apply Qle_bool_iff; reflexivity | exact B1]. }
  revert Ha0 Hab Hb.
  generalize (rnd_pos (inject_Z (Z.of_nat h))) (rnd_pos (inject_Z (Z.of_nat t))).
  intros a b Ha0 Hab Hb. cbv [f_div].
  destruct (Qeq_bool b 0) eqn:E.
  { apply Qeq_bool_iff in E. exfalso. lra. }
  destruct (to_f64_range (a / b) 1) as [x [Ex [X0 X1]]].
  - apply Qle_shift_div_l; [lra|]. lra.
  - apply Qle_shift_div_r; [lra|]. lra.
  - vm_compute. reflexivity.
  - apply Qlt_alt. vm_compute. reflexivity.
  - rewrite Ex. apply f_round2_unit. split; assumption.
Qed.

(** One group of a scored frame: the summary exists, has at least one
    response, and its rate is in [0, 1]. *)
Lemma summarize_group_bounded (rs : list row) (k : cell) :
  In k (group_keys rs) ->
  (forall r, In r rs -> (exists l, get r "final_label" = CStr l) /\
     is_str (get r "confidence_score") = false /\
     is_str (get r "hallucination_risk_score") = false) ->
  exists s, summarize_group rs k = inr s /\ model_name s = k /\ 1 <= total_responses s /\
    (exists q, hallucination_rate s = CNum q /\ (0 <= q <= 1)%Q).
Proof.
  intros Hk Hall. destruct (group_nonempty rs k Hk) as [r0 [Hr0 _]].
  assert (Hg : forall r, In r (group_rows k rs) -> In r rs)
    by (intros r Hr; apply filter_In in Hr; apply Hr).
  assert (Hcol : forall c b, (forall r, In r rs -> is_str (get r c) = false) ->
             exists m, agg_mean b (column_of c (group_rows k rs)) = inr m).
  { intros c b Hc. apply agg_mean_ok, no_str_existsb.
    intros v Hv. unfold column_of in Hv. apply in_map_iff in Hv as [r [<- Hr]].
    apply Hc, Hg, Hr. }
  destruct (Hcol "confidence_score" (existsb is_str (column_of "confidence_score" rs)))
    as [mc Hmc]; [intros r Hr; exact (proj1 (proj2 (Hall r Hr)))|].
  destruct (Hcol "hallucination_risk_score"
              (existsb is_str (column_of "hallucination_risk_score" rs)))
    as [mq Hmq]; [intros r Hr; exact (proj2 (proj2 (Hall r Hr)))|].
  unfold summarize_group. cbv beta zeta. rewrite Hmc, Hmq. cbn [bind ret].
  eexists. split; [reflexivity|]. cbn [model_name total_responses hallucination_rate].
  assert (Ht : 1 <= agg_count (column_of "final_label" (group_rows k rs))).
  { destruct (Hall r0 (Hg r0 Hr0)) as [[l Hl] _].
    apply (agg_count_pos _ (CStr l)); [|reflexivity].
    unfold column_of. rewrite <- Hl. apply (in_map (fun r => get r "final_label")), Hr0. }
  split; [reflexivity | split; [exact Ht|]].
  apply rate_unit; [exact Ht|].
  pose proof (label_counts_le (column_of "final_label" (group_rows k rs))). lia.
Qed.

(** X6: the [__main__] pipeline ([clean_responses], [analyze_dataframe],
    [compute_final_score], [generate_model_summary]) never fails on a frame
    with [model_name] and [response_text] columns.  Every summary is for
    the [model_name] of some input row, never NaN, counts at least one
    response, and has a hallucination rate that is a number in [0, 1]. *)
Theorem pipeline_summaries (df : frame) :
  In "model_name" (columns df) -> In "response_text" (columns df) ->
  exists out, pipeline df = inr out /\
    forall s, In s out ->
      model_name s <> CNaN /\
      (exists r, In r (rows df) /\ get r "model_name" = model_name s) /\
      1 <= total_responses s /\
      (exists q, hallucination_rate s = CNum q /\ (0 <= q <= 1)%Q).
Proof.
  intros Hm Hr.
  destruct (clean_responses_ok df Hr) as [d0 [Hc0 [Hcols0 [Hrows0 _]]]].
  assert (Hr0 : In "response_text" (columns d0)) by (rewrite Hcols0; exact Hr).
  destruct (analyze_score_ok d0 Hr0)
    as [d2 [Hd2 [_ [Hcols2 [Hl2 [Hc2 [Hk2 Hrow2]]]]]]].
  assert (Hall : forall r, In r (rows d2) -> (exists l, get r "final_label" = CStr l) /\
            is_str (get r "confidence_score") = false /\
            is_str (get r "hallucination_risk_score") = false).
  { intros r' Hr'. destruct (Hrow2 r' Hr') as [r [l [q [_ [Hl [Hc [Hq _]]]]]]].
    split; [eauto|]. rewrite Hc, Hq. split; [|reflexivity].
    unfold conf_cell. destruct (Detector.score_response _) as [[? ?] ?].
    apply to_f64_not_str. }
  assert (Hgms : exists out, generate_model_summary d2 = inr out).
  { unfold generate_model_summary.
    rewrite (proj2 (has_col_In _ _) (Hcols2 _ ltac:(rewrite Hcols0; exact Hm))).
    cbn [negb]. rewrite missing_col_none by (intros c Hc; cbn in Hc; intuition congruence).
    apply mapM_total. intros k Hk.
    destruct (summarize_group_bounded (rows d2) k Hk Hall) as [s [Hs _]]. eauto. }
  destruct Hgms as [out Hout]. exists out. split.
  - unfold pipeline. rewrite Hc0. cbn [bind].
    destruct (analyze_dataframe d0); cbn [bind] in Hd2 |- *; [discriminate|].
    rewrite Hd2. exact Hout.
  - intros s Hs. destruct (summary_In d2 out s Hout Hs) as [Hk Hg].
    destruct (summarize_group_bounded (rows d2) (model_name s) Hk Hall)
      as [s' [Hs' [_ Rest]]].
    rewrite Hg in Hs'. injection Hs' as <-.
    destruct (group_keys_props (rows d2)) as [_ [Hkeys _]].
    destruct (Hkeys _ Hk) as [Hn [r' [Hr' Hname]]].
    split; [exact Hn | split; [|exact Rest]].
    destruct (Hrow2 r' Hr') as [r [_ [_ [Hin [_ [_ [_ [Hmn _]]]]]]]].
    rewrite Hrows0 in Hin. apply in_map_iff in Hin as [r0 [<- Hin0]].
    apply filter_In in Hin0 as [Hin0 _].
    exists r0. split; [exact Hin0|]. rewrite <- Hname, Hmn.
    unfold cleaned_row. rewrite get_set_neq by discriminate. reflexivity.
Qed.

Lemma pipeline_summaries_witness :
  exists out, pipeline responses_frame = inr out /\
    forall s, In s out ->
      model_name s <> CNaN /\
      (exists r, In r (rows responses_frame) /\ get r "model_name" = model_name s) /\
      1 <= total_responses s /\
      (exists q, hallucination_rate s = CNum q /\ (0 <= q <= 1)%Q).
Proof. apply pipeline_summaries; cbn; tauto. Defined.

(* ------------------------------------------------------------------ *)
(** ** The groups partition the rows *)

Lemma list_sum_cons (a : nat) (l : list nat) : list_sum (a :: l) = a + list_sum l.
Proof. reflexivity. Qed.

Lemma length_filter_sum {A} (p : A -> bool) (l : list A) :
  length (filter p l) = list_sum (map (fun x => if p x then 1 else 0) l).
Proof.
  induction l as [|a l IH]; [reflexivity|]. cbn [filter map]. rewrite list_sum_cons.
  destruct (p a); cbn [length]; lia.
Qed.

Lemma list_sum_map_add {A} (f g : A -> nat) (l : list A) :
  list_sum (map (fun x => f x + g x) l) = list_sum (map f l) + list_sum (map g l).
Proof.
  induction l as [|a l IH]; [reflexivity|]. cbn [map]. rewrite !list_sum_cons, IH. lia.
Qed.

Lemma list_sum_map_zero {A} (l : list A) : list_sum (map (fun _ => 0) l) = 0.
Proof. induction l as [|a l IH]; [reflexivity|]. cbn [map]. rewrite list_sum_cons, IH. reflexivity. Qed.

Lemma sum_swap {A B} (g : A -> B -> bool) (rs : list A) (ks : list B) :
  list_sum (map (fun k => length (filter (fun r => g r k) rs)) ks) =
  list_sum (map (fun r => length (filter (g r) ks)) rs).
Proof.
  induction rs as [|a rs IH]; cbn [filter map].
  - cbn [length]. apply list_sum_map_zero.
  - rewrite list_sum_cons, <- IH, length_filter_sum, <- list_sum_map_add.
    f_equal. apply map_ext. intros k. destruct (g a k); reflexivity.
Qed.

Lemma same_key_sym (a b : cell) : same_key a b = same_key b a.
Proof.
  unfold same_key. rewrite key_compare_antisym. destruct (key_compare b a); reflexivity.
Qed.

Lemma filter_none {A} (p : A -> bool) (l : list A) :
  (forall x, In x l -> p x = false) -> filter p l = [].
Proof.
  induction l as [|a l IH]; intros H; cbn; [reflexivity|].
  rewrite (H a (or_introl eq_refl)). apply IH. intros x Hx. apply H. right. exact Hx.
Qed.

(** Every row with a model name falls in exactly one group; a row without
    one falls in none. *)
Lemma key_count (rs : list row) (r : row) :
  In r rs ->
  length (filter (fun k => same_key (get r "model_name") k) (group_keys rs)) =
  if is_nan (get r "model_name") then 0 else 1.
Proof.
  intros Hr. destruct (group_keys_props rs) as [Hs [Hk Hhas]].
  destruct (is_nan (get r "model_name")) eqn:En.
  - rewrite filter_none; [reflexivity|]. intros k Hin.
    destruct (Hk k Hin) as [Hkn _].
    destruct (get r "model_name"); try discriminate.
    destruct k as [| |[]|]; first [reflexivity | contradiction].
  - assert (Hnn : get r "model_name" <> CNaN) by (intros E; rewrite E in En; discriminate).
    pose proof (sorted_keys_unique _ (get r "model_name") Hs) as Hle.
    rewrite (filter_ext _ (fun k => same_key (get r "model_name") k))
      in Hle by (intros y; apply same_key_sym).
    destruct (Hhas r Hr Hnn) as [y [Hy Hyk]].
    assert (Hin : In y (filter (fun k => same_key (get r "model_name") k) (group_keys rs))).
    { apply filter_In. split; [exact Hy|]. rewrite same_key_sym. unfold same_key.
      rewrite Hyk. reflexivity. }
    destruct (filter (fun k => same_key (get r "model_name") k) (group_keys rs));
      [destruct Hin | cbn in Hle |- *; lia].
Qed.

Lemma group_count (p : cell -> bool) (rs : list row) (k : cell) :
  length (filter p (column_of "final_label" (group_rows k rs))) =
  length (filter (fun r => p (get r "final_label") && same_key (get r "model_name") k) rs).
Proof.
  unfold column_of, group_rows. rewrite length_filter_map.
  induction rs as [|r rs IH]; cbn; [reflexivity|].
  destruct (same_key (get r "model_name") k) eqn:E1, (p (get r "final_label")) eqn:E2;
    cbn; rewrite ?E1, ?E2; cbn; rewrite ?IH; reflexivity.
Qed.

(** Summing a per-group count of labels over the summaries counts the rows
    with a model name once each. *)
Lemma summary_partition (p : cell -> bool) (df : frame) (out : list ModelSummary) :
  generate_model_summary df = inr out ->
  list_sum (map (fun s => length (filter p (column_of "final_label"
                                              (group_rows (model_name s) (rows df))))) out) =
  length (filter (fun r => negb (is_nan (get r "model_name")) && p (get r "final_label"))
                 (rows df)).
Proof.
  intros H. rewrite <- (map_map model_name
    (fun k => length (filter p (column_of "final_label" (group_rows k (rows df)))))).
  rewrite (summary_keys df out H).
  rewrite (map_ext _ (fun k => length (filter (fun r => (fun r k => p (get r "final_label")
                                               && same_key (get r "model_name") k) r k)
                                              (rows df))))
    by (intros k; apply group_count).
  rewrite sum_swap, length_filter_sum. f_equal. apply map_ext_in. intros r Hr.
  destruct (p (get r "final_label")) eqn:Ep; cbn [andb].
  - rewrite (key_count _ _ Hr). rewrite andb_true_r.
    destruct (is_nan (get r "model_name")); reflexivity.
  - rewrite filter_none by reflexivity. rewrite andb_false_r. reflexivity.
Qed.

Lemma summary_sums (df : frame) (out : list ModelSummary) :
  generate_model_summary df = inr out ->
  list_sum (map total_responses out) =
    length (filter (fun r => negb (is_nan (get r "model_name")) &&
                             negb (is_nan (get r "final_label"))) (rows df)) /\
  list_sum (map hallucinated_count out) =
    length (filter (fun r => negb (is_nan (get r "model_name")) &&
                             is_label "hallucinated" (get r "final_label")) (rows df)) /\
  list_sum (map uncertain_count out) =
    length (filter (fun r => negb (is_nan (get r "model_name")) &&
                             is_label "uncertain" (get r "final_label")) (rows df)).
Proof.
  intros H.
  assert (Hf : forall s, In s out ->
            total_responses s = agg_count (column_of "final_label"
                                             (group_rows (model_name s) (rows df))) /\
            hallucinated_count s = agg_count_eq "hallucinated" (column_of "final_label"
                                             (group_rows (model_name s) (rows df))) /\
            uncertain_count s = agg_count_eq "uncertain" (column_of "final_label"
                                             (group_rows (model_name s) (rows df)))).
  { intros s Hs. destruct (summary_In df out s H Hs) as [_ Hg].
    destruct (summarize_group_fields _ _ _ Hg) as [_ [A [B [C _]]]]. auto. }
  split; [|split].
  - rewrite <- (summary_partition (fun v => negb (is_nan v)) df out H).
    f_equal. apply map_ext_in. intros s Hs. apply Hf, Hs.
  - rewrite <- (summary_partition (is_label "hallucinated") df out H).
    f_equal. apply map_ext_in. intros s Hs. apply Hf, Hs.
  - rewrite <- (summary_partition (is_label "uncertain") df out H).
    f_equal. apply map_ext_in. intros s Hs. apply Hf, Hs.
Qed.

(** X7: the summaries partition the rows: summed over all models,
    [total_responses] counts the rows with both a model name and a label,
    [hallucinated_count] the rows with a model name labelled
    "hallucinated", and [uncertain_count] those labelled "uncertain". *)
Theorem summary_partitions_rows (df : frame) (out : list ModelSummary) :
  generate_model_summary df = inr out ->
  list_sum (map total_responses out) =
    length (filter (fun r => negb (is_nan (get r "model_name")) &&
                             negb (is_nan (get r "final_label"))) (rows df)) /\
  list_sum (map hallucinated_count out) =
    length (filter (fun r => negb (is_nan (get r "model_name")) &&
                             is_label "hallucinated" (get r "final_label")) (rows df)) /\
  list_sum (map uncertain_count out) =
    length (filter (fun r => negb (is_nan (get r "model_name")) &&
                             is_label "uncertain" (get r "final_label")) (rows df)).
Proof. apply summary_sums. Qed.

Lemma summary_partitions_rows_witness :
  list_sum (map total_responses sample_summaries) =
    length (filter (fun r => negb (is_nan (get r "model_name")) &&
                             negb (is_nan (get r "final_label"))) (rows sample_scored)) /\
  list_sum (map hallucinated_count sample_summaries) =
    length (filter (fun r => negb (is_nan (get r "model_name")) &&
                             is_label "hallucinated" (get r "final_label")) (rows sample_scored)) /\
  list_sum (map uncertain_count sample_summaries) =
    length (filter (fun r => negb (is_nan (get r "model_name")) &&
                             is_label "uncertain" (get r "final_label")) (rows sample_scored)).
Proof. apply summary_partitions_rows. vm_compute. reflexivity. Defined.

(* ------------------------------------------------------------------ *)
(** ** Re-running a stage on its own output *)

Lemma frame_eq (a b : frame) : columns a = columns b -> rows a = rows b -> a = b.
Proof. destruct a, b; cbn. intros -> ->. reflexivity. Qed.

Lemma analyzed_row_idem (r : row) : analyzed_row (analyzed_row r) = analyzed_row r.
Proof.
  destruct (get_analyzed_row r) as [Hl [Hc [Hf Ho]]].
  assert (E : get (analyzed_row r) "response_text" = get r "response_text")
    by (apply Ho; discriminate).
  unfold analyzed_row at 1. rewrite E.
  cbv zeta in Hl, Hc, Hf.
  destruct (Detector.score_response (get r "response_text")) as [[f c] l].
  rewrite (set_get_same _ _ _ Hf) by discriminate.
  rewrite (set_get_same _ _ _ Hc) by (cbv [conf_cell]; apply to_f64_not_nan).
  rewrite (set_get_same _ _ _ Hl) by discriminate.
  reflexivity.
Qed.

Lemma analyze_form (df : frame) :
  In "response_text" (columns df) ->
  analyze_dataframe df =
    inr (assign (assign (assign df "hallucination_flag"
                   (map (fun r => flag_cell (Detector.score_response (get r "response_text")))
                        (rows df)))
                 "confidence_score"
                   (map (fun r => conf_cell (Detector.score_response (get r "response_text")))
                        (rows df)))
               "final_label"
                 (map (fun r => label_cell (Detector.score_response (get r "response_text")))
                      (rows df))).
Proof.
  intros H. unfold analyze_dataframe. apply has_col_In in H. rewrite H. cbn [negb].
  rewrite !map_map. reflexivity.
Qed.

(** X8: [analyze_dataframe] is idempotent: analysing an analysed frame
    returns it unchanged (same columns, same rows). *)
Theorem analyze_dataframe_idempotent (df d1 : frame) :
  analyze_dataframe df = inr d1 -> analyze_dataframe d1 = inr d1.
Proof.
  intros H. destruct (has_col "response_text" (columns df)) eqn:Hc.
  2:{ unfold analyze_dataframe in H. rewrite Hc in H. discriminate H. }
  apply has_col_In in Hc.
  destruct (analyze_ok df Hc) as [d [Hd [Hrows [Hcols [Hf [Hcf Hl]]]]]].
  rewrite Hd in H. injection H as <-.
  assert (Hr1 : In "response_text" (columns d)) by (apply Hcols, Hc).
  rewrite (analyze_form d Hr1).
  destruct (analyze_ok d Hr1) as [d' [Hd' [Hrows' _]]].
  rewrite (analyze_form d Hr1) in Hd'. injection Hd' as Hd'.
  f_equal. apply frame_eq.
  - assert (C1 : forall v, columns (assign d "hallucination_flag" v) = columns d)
      by (intros v; apply assign_columns_present, Hf).
    assert (C2 : forall v w, columns (assign (assign d "hallucination_flag" v)
                                         "confidence_score" w) = columns d)
      by (intros v w; rewrite assign_columns_present, C1; [reflexivity | rewrite C1; exact Hcf]).
    rewrite assign_columns_present, C2; [reflexivity | rewrite C2; exact Hl].
  - rewrite Hd', Hrows', Hrows, map_map. apply map_ext. apply analyzed_row_idem.
Qed.

Lemma analyze_dataframe_idempotent_witness :
  exists d1, analyze_dataframe responses_frame = inr d1 /\ analyze_dataframe d1 = inr d1.
Proof.
  eexists. split; [vm_compute; reflexivity|].
  apply (analyze_dataframe_idempotent responses_frame). vm_compute. reflexivity.
Defined.

Lemma risk_of_row_set_risk (r : row) (v : cell) :
  risk_of_row (set r "hallucination_risk_score" v) = risk_of_row r.
Proof. unfold risk_of_row. rewrite !get_set_neq by discriminate. reflexivity. Qed.

Lemma mapM_risk_set (rs : list row) (vs : list cell) :
  Forall2 (fun r v => risk_of_row r = inr v) rs vs ->
  mapM risk_of_row (map (fun '(r, v) => set r "hallucination_risk_score" v) (combine rs vs)) =
  inr vs.
Proof.
  induction 1 as [|r v rs vs Hrv _ IH]; [reflexivity|]. cbn [combine map mapM].
  rewrite risk_of_row_set_risk, Hrv. cbn [bind]. rewrite IH. reflexivity.
Qed.

Lemma set_rows_again (c : string) (rs : list row) (vs : list cell) :
  length rs = length vs ->
  map (fun '(r, v) => set r c v)
      (combine (map (fun '(r, v) => set r c v) (combine rs vs)) vs) =
  map (fun '(r, v) => set r c v) (combine rs vs).
Proof.
  revert vs. induction rs as [|r rs IH]; intros [|v vs] Hl; cbn in Hl |- *; try reflexivity.
  rewrite set_set, IH by lia. reflexivity.
Qed.

(** X9: [compute_final_score] is idempotent: scoring a scored frame
    recomputes the same risk scores and returns it unchanged. *)
Theorem compute_final_score_idempotent (d d2 : frame) :
  compute_final_score d = inr d2 -> compute_final_score d2 = inr d2.
Proof.
  intros H. unfold compute_final_score in H.
  destruct (subset_cols required_cols (columns d)) eqn:Hs; cbn [negb] in H; [|discriminate].
  destruct (mapM risk_of_row (rows d)) as [e|risks] eqn:Hm; cbn in H; [discriminate|].
  injection H as <-.
  pose proof (mapM_Forall2 _ _ _ Hm) as HF.
  destruct (assign_columns d "hallucination_risk_score" risks) as [A1 B1].
  unfold compute_final_score.
  rewrite (proj2 (subset_cols_In _ _)).
  2:{ intros c Hc. apply B1. apply (proj1 (subset_cols_In _ _) Hs), Hc. }
  cbn [negb]. cbn [rows assign]. rewrite mapM_risk_set by exact HF. cbn [bind].
  unfold ret. f_equal. apply frame_eq.
  - apply assign_columns_present, A1.
  - apply set_rows_again. eapply Forall2_length, HF.
Qed.

Lemma compute_final_score_idempotent_witness :
  exists d2, compute_final_score sample_frame = inr d2 /\ compute_final_score d2 = inr d2.
Proof.
  eexists. split; [vm_compute; reflexivity|].
  apply (compute_final_score_idempotent sample_frame). vm_compute. reflexivity.
Defined.

(* ------------------------------------------------------------------ *)
(** ** The label read off the confidence *)

(** X10: the label is a threshold function of the confidence score:
    "hallucinated" exactly when the confidence is at most 0.4, "accurate"
    exactly when it is at least 0.7, "uncertain" in between; the confidence
    takes one of the eight values 1, 0.8, 0.7, 0.6, 0.5, 0.4, 0.3, 0.1. *)
Theorem label_by_confidence (v : cell) :
  let '(_, c, l) := Detector.score_response v in
  String.eqb l "hallucinated" = Qle_bool c (4 # 10) /\
  String.eqb l "accurate" = Qle_bool (7 # 10) c /\
  String.eqb l "uncertain" = negb (Qle_bool c (4 # 10)) && negb (Qle_bool (7 # 10) c) /\
  In c [100 # 100; 80 # 100; 70 # 100; 60 # 100; 50 # 100; 40 # 100; 30 # 100; 10 # 100].
Proof.
  unfold Detector.score_response, Detector.hallucination_score, Detector.py_min,
    Detector.raw_score.
  case_checks (Detector.normalize v); vm_compute;
    (split; [reflexivity | split; [reflexivity | split; [reflexivity|]]]);
    repeat (first [left; reflexivity | right]).
Qed.

(** X11: every summary's [hallucination_rate] is NaN exactly when its
    [total_responses] is 0, and otherwise a number in [0, 1]. *)
Theorem summary_rate_range (df : frame) (out : list ModelSummary) (s : ModelSummary) :
  generate_model_summary df = inr out -> In s out ->
  (total_responses s = 0 /\ hallucination_rate s = CNaN) \/
  (1 <= total_responses s /\
   exists q, hallucination_rate s = CNum q /\ (0 <= q <= 1)%Q).
Proof.
  intros H Hs. destruct (summary_In df out s H Hs) as [_ Hg].
  destruct (summarize_group_fields _ _ _ Hg) as [_ [Ht [Hh [Hu Hr]]]].
  pose proof (label_counts_le (column_of "final_label" (group_rows (model_name s) (rows df))))
    as Hle.
  rewrite <- Ht, <- Hh, <- Hu in Hle. rewrite Hr.
  destruct (total_responses s) as [|t] eqn:Et.
  - left. split; [reflexivity|].
    assert (hallucinated_count s = 0) as -> by lia. reflexivity.
  - right. split; [lia|]. apply rate_unit; lia.
Qed.

Lemma summary_rate_range_witness :
  In sample_summary_a sample_summaries /\
  ((total_responses sample_summary_a = 0 /\ hallucination_rate sample_summary_a = CNaN) \/
   (1 <= total_responses sample_summary_a /\
    exists q, hallucination_rate sample_summary_a = CNum q /\ (0 <= q <= 1)%Q)).
Proof.
  split; [vm_compute; left; reflexivity|].
  apply (summary_rate_range sample_scored sample_summaries);
    [vm_compute; reflexivity | vm_compute; left; reflexivity].
Defined.

(* ------------------------------------------------------------------ *)
(** ** Errors and missing values in [compute_final_score] *)

Lemma risk_of_row_cases (r : row) :
  (exists e, risk_of_row r = inl e) <->
  is_str (get r "confidence_score") || is_str (get r "hallucination_flag") = true.
Proof.
  rewrite risk_of_row_eq. destruct (_ || _); split;
    first [intros _; reflexivity | intros _; eexists; reflexivity
          | intros [e He]; discriminate He | intros Hb; discriminate Hb].
Qed.

(** A finite result stays finite when its magnitude is below a bound that
    rounds below 2^1024. *)
Lemma to_f64_finite (x m : Q) :
  (Qabs x <= m)%Q -> (rnd_pos m < pow2 1024)%Q -> exists y, to_f64 x = CNum y.
Proof.
  intros Hx Hm. unfold to_f64.
  assert (Hd : (Qabs (dbl x) <= rnd_pos m)%Q).
  { unfold dbl. destruct (Qle_bool 0 x) eqn:E.
    - apply Qle_bool_iff in E. rewrite Qabs_pos by apply rnd_pos_nonneg.
      apply rnd_pos_mono; [exact E|]. rewrite Qabs_pos in Hx by exact E. exact Hx.
    - assert (E' : (x < 0)%Q)
        by (apply Qnot_le_lt; intros H'; apply Qle_bool_iff in H'; congruence).
      clear E. rename E' into E.
      rewrite Qabs_opp, Qabs_pos by apply rnd_pos_nonneg.
      apply rnd_pos_mono; [lra|]. rewrite Qabs_neg in Hx by lra. exact Hx. }
  destruct (Qle_bool (pow2 1024) (Qabs (dbl x))) eqn:E.
  - apply Qle_bool_iff in E. exfalso. lra.
  - eexists. reflexivity.
Qed.

Lemma f_round2_nan (a : cell) : is_str a = false -> (f_round2 a = CNaN <-> a = CNaN).
Proof.
  destruct a as [s|p|b|]; intros Ha; [discriminate Ha | | | split; reflexivity].
  - unfold f_round2. cbv [f_mul]. unfold to_f64 at 1.
    destruct (Qle_bool _ _); cbv [f_rint f_div];
      [|replace (Qeq_bool 100 0) with false by reflexivity];
      split; intros H; try discriminate H; exfalso; exact (to_f64_not_nan _ H).
  - unfold f_round2. cbv [f_mul]. replace (Qeq_bool 100 0) with false by reflexivity.
    cbv [f_rint f_div]. split; intros H; discriminate H.
Qed.

(** [1 - c] and [f * 0.5] on a float64 value. *)
Lemma one_minus_shape (c : cell) :
  is_str c = false -> f64_range c = true ->
  (exists q y, c = CNum q /\ f_sub (CNum 1) c = CNum y) \/
  (exists b, c = CInf b /\ f_sub (CNum 1) c = CInf (negb b)) \/
  (c = CNaN /\ f_sub (CNum 1) c = CNaN).
Proof.
  destruct c as [s|q|b|]; intros Hs Hr; [discriminate Hs | left | right; left | right; right].
  - apply Qle_bool_iff in Hr. unfold f_sub, f_neg, f_add.
    destruct (to_f64_finite (1 + - q) (1 + max_f64)) as [y Hy].
    + apply Qle_trans with (Qabs 1 + Qabs (- q))%Q; [apply Qabs_triangle|].
      rewrite Qabs_opp. change (Qabs 1%Q) with 1%Q. lra.
    + apply Qlt_alt. vm_compute. reflexivity.
    + exists q, y. split; [reflexivity | exact Hy].
  - exists b. split; reflexivity.
  - split; reflexivity.
Qed.

Lemma half_shape (f : cell) :
  is_str f = false -> f64_range f = true ->
  (exists q y, f = CNum q /\ f_mul f (CNum (1 # 2)) = CNum y) \/
  (exists b, f = CInf b /\ f_mul f (CNum (1 # 2)) = CInf b) \/
  (f = CNaN /\ f_mul f (CNum (1 # 2)) = CNaN).
Proof.
  destruct f as [s|q|b|]; intros Hs Hr; [discriminate Hs | left | right; left | right; right].
  - apply Qle_bool_iff in Hr. unfold f_mul.
    destruct (to_f64_finite (q * (1 # 2)) max_f64) as [y Hy].
    + rewrite Qabs_Qmult. change (Qabs (1 # 2)) with (1 # 2)%Q.
      pose proof (Qabs_nonneg q). lra.
    + apply Qlt_alt. vm_compute. reflexivity.
    + exists q, y. split; [reflexivity | exact Hy].
  - exists b. split; [reflexivity|]. cbv [f_mul]. destruct b; reflexivity.
  - split; reflexivity.
Qed.

(** The risk formula on float64 inputs is NaN exactly when an input is
    NaN or both inputs are the same infinity (inf - inf). *)
Lemma risk_value_nan (c f : cell) :
  is_str c = false -> is_str f = false -> f64_range c = true -> f64_range f = true ->
  (f_round2 (f_add (f_sub (CNum 1) c) (f_mul f (CNum (1 # 2)))) = CNaN <->
   is_nan c = true \/ is_nan f = true \/ exists b, c = CInf b /\ f = CInf b).
Proof.
  intros Hc Hf Rc Rf. rewrite f_round2_nan by apply f_add_not_str.
  destruct (one_minus_shape c Hc Rc) as [[q [y [-> ->]]]|[[b [-> ->]]|[-> ->]]];
  destruct (half_shape f Hf Rf) as [[p [z [-> ->]]]|[[b' [-> ->]]|[-> ->]]];
  try destruct b; try destruct b'; cbv [f_add Bool.eqb negb is_nan];
  split;
  first [ intros H; exfalso; exact (to_f64_not_nan _ H)
        | intros H; discriminate H
        | intros _; left; reflexivity
        | intros _; right; left; reflexivity
        | intros _; right; right; eexists; split; reflexivity
        | intros [H|[H|[x [H1 H2]]]]; first [discriminate H | discriminate H1 | congruence]
        | intros _; reflexivity ].
Qed.

Lemma mapM_ok_In {A B} (f : A -> result B) (l : list A) (out : list B) (a : A) :
  mapM f l = inr out -> In a l -> exists b, f a = inr b.
Proof.
  intros H. apply mapM_Forall2 in H. induction H as [|x y l out Hxy _ IH]; [intros []|].
  intros [<-|Ha]; [exists y; exact Hxy | apply IH, Ha].
Qed.

Lemma compute_final_score_rows (d d2 : frame) :
  compute_final_score d = inr d2 ->
  forall r', In r' (rows d2) ->
    exists r v, In r (rows d) /\ risk_of_row r = inr v /\ r' = set r "hallucination_risk_score" v.
Proof.
  intros H. unfold compute_final_score in H.
  destruct (subset_cols required_cols (columns d)); cbn [negb] in H; [|discriminate].
  destruct (mapM risk_of_row (rows d)) as [e|risks] eqn:Hm; cbn in H; [discriminate|].
  injection H as <-. pose proof (mapM_Forall2 _ _ _ Hm) as HF.
  intros r' Hr'. cbn in Hr'. apply in_map_iff in Hr' as [[r v] [<- Hin]].
  exists r, v. split; [apply (in_combine_l _ _ _ _ Hin)|].
  split; [apply (Forall2_combine_In _ _ _ _ _ HF Hin) | reflexivity].
Qed.

(** X12: past its column check, [compute_final_score] fails, with a
    [TypeError], exactly when some row holds a string in [confidence_score]
    or [hallucination_flag]; it raises no other error. *)
Theorem compute_final_score_type_error (d : frame) :
  (compute_final_score d = inl TypeError <->
   subset_cols required_cols (columns d) = true /\
   exists r, In r (rows d) /\
     is_str (get r "confidence_score") || is_str (get r "hallucination_flag") = true) /\
  (forall e, compute_final_score d = inl e ->
   e = TypeError \/ subset_cols required_cols (columns d) = false).
Proof.
  unfold compute_final_score.
  destruct (subset_cols required_cols (columns d)) eqn:Hs; cbn [negb].
  2:{ split; [split; [discriminate | intros [H _]; discriminate H] | right; reflexivity]. }
  destruct (mapM risk_of_row (rows d)) as [e|risks] eqn:Hm; cbn [bind].
  - destruct (mapM_inl _ _ _ Hm) as [r [Hr He]].
    pose proof (risk_of_row_error _ _ He) as ->.
    split; [|intros e' He'; injection He' as <-; left; reflexivity].
    split; [intros _; split; [reflexivity|] | intros _; reflexivity].
    exists r. split; [exact Hr|]. apply (proj1 (risk_of_row_cases r)). eauto.
  - split; [|intros e He; discriminate He].
    split; [intros H; discriminate H|]. intros [_ [r [Hr Hb]]]. exfalso.
    destruct (proj2 (risk_of_row_cases r) Hb) as [e He].
    destruct (mapM_ok_In _ _ _ r Hm Hr) as [v Hv]. congruence.
Qed.


(** X13: missing values propagate through [compute_final_score]: in a
    scored frame every risk score is a number, an infinity or NaN, never a
    string; for a row whose confidence score and flag are float64 values,
    the risk score is NaN exactly when one of them is NaN or both are the
    same infinity ([inf - inf] inside the formula). *)
Theorem compute_final_score_nan (d d2 : frame) :
  compute_final_score d = inr d2 ->
  forall r', In r' (rows d2) ->
    is_str (get r' "hallucination_risk_score") = false /\
    (f64_range (get r' "confidence_score") = true ->
     f64_range (get r' "hallucination_flag") = true ->
     (get r' "hallucination_risk_score" = CNaN <->
      is_nan (get r' "confidence_score") = true \/ is_nan (get r' "hallucination_flag") = true \/
      exists b, get r' "confidence_score" = CInf b /\ get r' "hallucination_flag" = CInf b)).
Proof.
  intros H r' Hr'. destruct (compute_final_score_rows d d2 H r' Hr') as [r [v [_ [Hv ->]]]].
  rewrite get_set_eq, !get_set_neq by discriminate.
  rewrite risk_of_row_eq in Hv.
  destruct (is_str (get r "confidence_score")) eqn:Ec; [discriminate Hv|].
  destruct (is_str (get r "hallucination_flag")) eqn:Ef; [discriminate Hv|].
  injection Hv as <-. split; [apply f_round2_not_str|].
  intros Rc Rf. apply risk_value_nan; assumption.
Qed.

(** Witness: a row whose confidence and flag are both +inf gets a NaN
    risk score. *)
Lemma compute_final_score_nan_witness :
  (is_str (get (nth 0 (rows inf_scored) []) "hallucination_risk_score") = false /\
   (f64_range (get (nth 0 (rows inf_scored) []) "confidence_score") = true ->
    f64_range (get (nth 0 (rows inf_scored) []) "hallucination_flag") = true ->
    (get (nth 0 (rows inf_scored) []) "hallucination_risk_score" = CNaN <->
     is_nan (get (nth 0 (rows inf_scored) []) "confidence_score") = true \/
     is_nan (get (nth 0 (rows inf_scored) []) "hallucination_flag") = true \/
     exists b, get (nth 0 (rows inf_scored) []) "confidence_score" = CInf b /\
               get (nth 0 (rows inf_scored) []) "hallucination_flag" = CInf b))) /\
  get (nth 0 (rows inf_scored) []) "hallucination_risk_score" = CNaN.
Proof.
  split; [|vm_compute; reflexivity].
  apply (compute_final_score_nan inf_frame inf_scored);
    vm_compute; first [reflexivity | left; reflexivity].
Defined.

(* ------------------------------------------------------------------ *)
(** ** The [TypeError] of [generate_model_summary] *)

Lemma agg_mean_err (obj : bool) (vs : list cell) :
  (exists e, agg_mean obj vs = inl e) <-> exists v, In v vs /\ is_str v = true.
Proof.
  rewrite <- existsb_exists. unfold agg_mean.
  destruct (existsb is_str vs); split;
    first [intros _; reflexivity | intros _; eexists; reflexivity
          | intros [e He]; revert He; destruct (length _); discriminate
          | intros Hb; discriminate Hb].
Qed.

Lemma column_of_In (c : string) (rs : list row) (v : cell) :
  In v (column_of c rs) <-> exists r, In r rs /\ get r c = v.
Proof.
  unfold column_of. rewrite in_map_iff. split; intros [r [H1 H2]]; eauto.
Qed.

Lemma summarize_group_err (rs : list row) (k : cell) :
  (exists e, summarize_group rs k = inl e) <->
  exists r, In r (group_rows k rs) /\
    is_str (get r "confidence_score") || is_str (get r "hallucination_risk_score") = true.
Proof.
  assert (Hcol : forall c b, (exists e, agg_mean b (column_of c (group_rows k rs)) = inl e) <->
                             exists r, In r (group_rows k rs) /\ is_str (get r c) = true).
  { intros c b. rewrite agg_mean_err. split.
    - intros [v [Hv Hs]]. apply column_of_In in Hv as [r [Hr <-]]. eauto.
    - intros [r [Hr Hs]]. exists (get r c). split; [apply column_of_In; eauto | exact Hs]. }
  unfold summarize_group. cbv beta zeta.
  destruct (agg_mean _ (column_of "confidence_score" (group_rows k rs))) as [e1|a1] eqn:E1;
    cbn [bind].
  - split; [intros _ | intros _; eauto].
    destruct (proj1 (Hcol "confidence_score" _) (ex_intro _ e1 E1)) as [r [Hr Hs]].
    exists r. rewrite Hs. auto.
  - destruct (agg_mean _ (column_of "hallucination_risk_score" (group_rows k rs)))
      as [e2|a2] eqn:E2; cbn [bind ret].
    + split; [intros _ | intros _; eauto].
      destruct (proj1 (Hcol "hallucination_risk_score" _) (ex_intro _ e2 E2)) as [r [Hr Hs]].
      exists r. rewrite Hs, orb_true_r. auto.
    + split; [intros [e He]; discriminate He|].
      intros [r [Hr Hs]]. apply orb_true_iff in Hs as [Hs|Hs].
      * destruct (proj2 (Hcol "confidence_score" (existsb is_str (column_of "confidence_score" rs)))
                    (ex_intro _ r (conj Hr Hs))) as [e He].
        congruence.
      * destruct (proj2 (Hcol "hallucination_risk_score"
                           (existsb is_str (column_of "hallucination_risk_score" rs)))
                    (ex_intro _ r (conj Hr Hs)))
          as [e He]. congruence.
Qed.

Lemma same_key_nan (k : cell) : k <> CNaN -> same_key CNaN k = false.
Proof. destruct k as [| |[]|]; try reflexivity. intros H; contradiction. Qed.

(** A row lies in some group exactly when its model name is not missing. *)
Lemma row_in_some_group (rs : list row) (r : row) :
  In r rs ->
  (get r "model_name" <> CNaN <-> exists k, In k (group_keys rs) /\ In r (group_rows k rs)).
Proof.
  intros Hr. destruct (group_keys_props rs) as [_ [Hk Hhas]]. split.
  - intros Hn. destruct (Hhas r Hr Hn) as [y [Hy Hyk]]. exists y. split; [exact Hy|].
    apply filter_In. split; [exact Hr|]. rewrite same_key_sym. unfold same_key.
    rewrite Hyk. reflexivity.
  - intros [k [Hkin Hg]] Hn. apply filter_In in Hg as [_ Hs].
    rewrite Hn, same_key_nan in Hs; [discriminate|]. apply (Hk k Hkin).
Qed.

(** X14: past its column checks, [generate_model_summary] fails, with a
    [TypeError], exactly when some row with a model name holds a string in
    [confidence_score] or [hallucination_risk_score]; a string in a row
    whose model name is missing is never aggregated and raises nothing. *)
Theorem generate_model_summary_type_error (df : frame) :
  generate_model_summary df = inl TypeError <->
  In "model_name" (columns df) /\ (forall c, In c agg_cols -> In c (columns df)) /\
  exists r, In r (rows df) /\ get r "model_name" <> CNaN /\
    is_str (get r "confidence_score") || is_str (get r "hallucination_risk_score") = true.
Proof.
  unfold generate_model_summary.
  destruct (has_col "model_name" (columns df)) eqn:Hm; cbn [negb].
  2:{ split; [discriminate|]. intros [Hin _]. apply has_col_In in Hin. congruence. }
  destruct (missing_col (columns df)) as [c|] eqn:Hmc.
  { split; [discriminate|]. intros [_ [Hall _]].
    apply find_some in Hmc as [Hc Hn]. rewrite (proj2 (has_col_In _ _) (Hall c Hc)) in Hn.
    discriminate Hn. }
  assert (Hall : forall c, In c agg_cols -> In c (columns df)).
  { intros c Hc. apply has_col_In. apply (find_none _ _ Hmc) in Hc.
    destruct (has_col c (columns df)); [reflexivity | discriminate Hc]. }
  split.
  - intros H. split; [apply has_col_In, Hm | split; [exact Hall|]].
    destruct (mapM_inl _ _ _ H) as [k [Hk He]].
    destruct (proj1 (summarize_group_err _ _) (ex_intro _ _ He)) as [r [Hr Hs]].
    exists r. split; [apply filter_In in Hr; apply Hr|]. split; [|exact Hs].
    apply (row_in_some_group (rows df) r); [apply filter_In in Hr; apply Hr|]. eauto.
  - intros [_ [_ [r [Hr [Hn Hs]]]]].
    destruct (proj1 (row_in_some_group _ _ Hr) Hn) as [k [Hk Hg]].
    destruct (proj2 (summarize_group_err _ _) (ex_intro _ r (conj Hg Hs))) as [e He].
    destruct (mapM (summarize_group (rows df)) (group_keys (rows df))) as [e'|out] eqn:Em.
    + destruct (mapM_inl _ _ _ Em) as [k' [_ He']].
      rewrite (summarize_group_error _ _ _ He'). reflexivity.
    + destruct (mapM_ok_In _ _ _ k Em Hk) as [s Hs']. congruence.
Qed.

(* ------------------------------------------------------------------ *)
(** ** Counting through the pipeline *)

Lemma length_filter_filter {A} (p q : A -> bool) (l : list A) :
  length (filter p (filter q l)) = length (filter (fun x => q x && p x) l).
Proof.
  induction l as [|a l IH]; [reflexivity|]. cbn [filter].
  destruct (q a) eqn:Eq, (p a) eqn:Ep; cbn; rewrite ?Eq, ?Ep; cbn; rewrite ?IH; reflexivity.
Qed.

Lemma compute_final_score_filter (P : row -> bool) (d d2 : frame) :
  compute_final_score d = inr d2 ->
  (forall r v, P (set r "hallucination_risk_score" v) = P r) ->
  length (filter P (rows d2)) = length (filter P (rows d)).
Proof.
  intros H HP. unfold compute_final_score in H.
  destruct (subset_cols required_cols (columns d)); cbn [negb] in H; [|discriminate].
  destruct (mapM risk_of_row (rows d)) as [e|risks] eqn:Hm; cbn in H; [discriminate|].
  injection H as <-. cbn [rows assign].
  pose proof (Forall2_length (mapM_Forall2 _ _ _ Hm)) as Hl. clear Hm.
  revert risks Hl. induction (rows d) as [|r rs IH]; intros [|v vs] Hl; cbn in Hl |- *;
    try reflexivity; try discriminate.
  rewrite HP. destruct (P r); cbn; rewrite IH by lia; reflexivity.
Qed.

(** The stages of a successful pipeline run, for counting rows. *)
Lemma pipeline_stages (df : frame) (out : list ModelSummary) :
  pipeline df = inr out ->
  exists d2, generate_model_summary d2 = inr out /\
    forall P : row -> bool, (forall r v, P (set r "hallucination_risk_score" v) = P r) ->
      length (filter P (rows d2)) =
      length (filter (fun r => (10 <? String.length (DataLoader.clean_text
                                                     (get r "response_text"))) &&
                               P (analyzed_row (cleaned_row r))) (rows df)).
Proof.
  intros H. unfold pipeline in H.
  destruct (has_col "response_text" (columns df)) eqn:Hc.
  2:{ unfold DataLoader.clean_responses in H. rewrite Hc in H. discriminate H. }
  apply has_col_In in Hc.
  destruct (clean_responses_ok df Hc) as [d0 [E0 [Hcols0 [Hrows0 _]]]].
  rewrite E0 in H. cbn [bind] in H.
  assert (Hc0 : In "response_text" (columns d0)) by (rewrite Hcols0; exact Hc).
  destruct (analyze_ok d0 Hc0) as [d1 [E1 [Hrows1 _]]].
  rewrite E1 in H. cbn [bind] in H.
  destruct (compute_final_score d1) as [e|d2] eqn:E2; cbn [bind] in H; [discriminate|].
  exists d2. split; [exact H|]. intros P HP.
  rewrite (compute_final_score_filter P d1 d2 E2 HP), Hrows1, Hrows0, map_map,
    length_filter_map, length_filter_filter.
  reflexivity.
Qed.

(** X15: every input row is counted once through the whole pipeline: when
    [pipeline] succeeds, the summed [total_responses] is the number of input
    rows with a model name whose cleaned text is longer than 10 characters,
    and the summed [hallucinated_count] / [uncertain_count] count those of
    them whose cleaned text [score_response] labels "hallucinated" /
    "uncertain". *)
Theorem pipeline_counts (df : frame) (out : list ModelSummary) :
  pipeline df = inr out ->
  let kept r := negb (is_nan (get r "model_name")) &&
                (10 <? String.length (DataLoader.clean_text (get r "response_text"))) in
  let lab r := snd (Detector.score_response
                      (CStr (DataLoader.clean_text (get r "response_text")))) in
  list_sum (map total_responses out) = length (filter kept (rows df)) /\
  list_sum (map hallucinated_count out) =
    length (filter (fun r => kept r && String.eqb (lab r) "hallucinated") (rows df)) /\
  list_sum (map uncertain_count out) =
    length (filter (fun r => kept r && String.eqb (lab r) "uncertain") (rows df)).
Proof.
  intros H. cbv zeta. destruct (pipeline_stages df out H) as [d2 [Hg Hcount]].
  destruct (summary_sums d2 out Hg) as [S1 [S2 S3]].
  assert (Hname : forall r, get (analyzed_row (cleaned_row r)) "model_name" = get r "model_name").
  { intros r. destruct (get_analyzed_row (cleaned_row r)) as [_ [_ [_ Ho]]].
    rewrite Ho by discriminate. unfold cleaned_row. apply get_set_neq. discriminate. }
  assert (Hlab : forall r, get (analyzed_row (cleaned_row r)) "final_label" =
            CStr (snd (Detector.score_response
                         (CStr (DataLoader.clean_text (get r "response_text")))))).
  { intros r. destruct (get_analyzed_row (cleaned_row r)) as [Hl _]. cbv zeta in Hl.
    rewrite Hl. unfold cleaned_row. rewrite get_set_eq.
    destruct (Detector.score_response (CStr (DataLoader.clean_text (get r "response_text"))))
      as [[f c] l]. reflexivity. }
  assert (Hinv : forall (p : cell -> bool) r v,
            (fun r => negb (is_nan (get r "model_name")) && p (get r "final_label"))
              (set r "hallucination_risk_score" v) =
            (fun r => negb (is_nan (get r "model_name")) && p (get r "final_label")) r).
  { intros p r v. cbv beta. rewrite !get_set_neq by discriminate. reflexivity. }
  rewrite S1, S2, S3, (Hcount _ (Hinv (fun v => negb (is_nan v)))),
    (Hcount _ (Hinv (is_label "hallucinated"))), (Hcount _ (Hinv (is_label "uncertain"))).
  split; [|split]; f_equal; apply filter_ext; intros r; rewrite Hname, Hlab; cbn [is_nan is_label];
    destruct (is_nan (get r "model_name")),
      (10 <? String.length (DataLoader.clean_text (get r "response_text"))); reflexivity.
Qed.

Lemma pipeline_counts_witness :
  exists out, pipeline responses_frame = inr out /\
  let kept r := negb (is_nan (get r "model_name")) &&
                (10 <? String.length (DataLoader.clean_text (get r "response_text"))) in
  let lab r := snd (Detector.score_response
                      (CStr (DataLoader.clean_text (get r "response_text")))) in
  list_sum (map total_responses out) = length (filter kept (rows responses_frame)) /\
  list_sum (map hallucinated_count out) =
    length (filter (fun r => kept r && String.eqb (lab r) "hallucinated") (rows responses_frame)) /\
  list_sum (map uncertain_count out) =
    length (filter (fun r => kept r && String.eqb (lab r) "uncertain") (rows responses_frame)).
Proof.
  eexists. split; [vm_compute; reflexivity|].
  apply (pipeline_counts responses_frame). vm_compute. reflexivity.
Defined.

(* ------------------------------------------------------------------ *)
(** ** The two text checks grow with the text *)

Lemma prefix_app (p s b : string) : prefix p s = true -> prefix p (s ++ b) = true.
Proof.
  revert p. induction s as [|d s IH]; intros p H.
  - destruct p; [destruct b; reflexivity | discriminate H].
  - destruct p as [|c p]; [destruct b; reflexivity|]. cbn in H |- *.
    destruct (ascii_dec c d); [apply IH, H | discriminate H].
Qed.

Lemma contains_app_r (p a t : string) : contains p t = true -> contains p (a ++ t) = true.
Proof.
  induction a as [|c a IH]; intros H; [exact H|]. cbn. rewrite IH by exact H.
  apply orb_true_r.
Qed.

Lemma contains_app_l (p t b : string) : contains p t = true -> contains p (t ++ b) = true.
Proof.
  induction t as [|c t IH]; intros H.
  - cbn in H. rewrite orb_false_r in H.
    destruct p; [destruct b; reflexivity | discriminate H].
  - cbn [contains append] in H |- *. apply orb_true_iff in H as [H|H].
    + change (String c (t ++ b)) with (String c t ++ b). rewrite (prefix_app _ _ _ H). reflexivity.
    + rewrite IH by exact H. apply orb_true_r.
Qed.

Lemma lower_app (a b : string) : lower (a ++ b) = lower a ++ lower b.
Proof. induction a as [|c a IH]; cbn; [reflexivity | rewrite IH; reflexivity]. Qed.

Lemma any_char_app (p : ascii -> bool) (a b : string) :
  any_char p (a ++ b) = any_char p a || any_char p b.
Proof. induction a as [|c a IH]; cbn; [reflexivity | rewrite IH, orb_assoc; reflexivity]. Qed.

(** X16: [contains_uncertainty] and [has_numeric_claim] only grow with the
    text: a check that fires on [t] fires on every text [a ++ t ++ b] that
    contains it, and [has_numeric_claim] of a concatenation is the
    disjunction of the parts. *)
Theorem checks_monotone (a t b : string) :
  (Detector.contains_uncertainty t = true ->
   Detector.contains_uncertainty (a ++ t ++ b) = true) /\
  (Detector.has_numeric_claim t = true ->
   Detector.has_numeric_claim (a ++ t ++ b) = true) /\
  Detector.has_numeric_claim (a ++ b) =
    Detector.has_numeric_claim a || Detector.has_numeric_claim b.
Proof.
  split; [|split].
  - unfold Detector.contains_uncertainty. rewrite !lower_app.
    rewrite !existsb_exists. intros [p [Hp Hc]]. exists p. split; [exact Hp|].
    apply contains_app_r, contains_app_l, Hc.
  - unfold Detector.has_numeric_claim. intros H. rewrite !any_char_app, H.
    rewrite orb_true_r. reflexivity.
  - apply any_char_app.
Qed.

(* ------------------------------------------------------------------ *)
(** ** The box plot data *)










(* ------------------------------------------------------------------ *)
(** ** Cleaning only removes characters *)

Lemma sub_ws_length (b : bool) (s : string) :
  String.length (DataLoader.sub_ws b s) <= String.length s.
Proof.
  revert b. induction s as [|c s IH]; intros b; cbn; [lia|].
  pose proof (IH true). pose proof (IH false).
  destruct (is_space c), b; cbn; lia.
Qed.

Lemma lstrip_length (s : string) : String.length (lstrip s) <= String.length s.
Proof.
  induction s as [|c s IH]; cbn; [lia|]. destruct (is_space c); cbn; lia.
Qed.

Lemma rev_str_length (s acc : string) :
  String.length (rev_str s acc) = String.length s + String.length acc.
Proof.
  revert acc. induction s as [|c s IH]; intros acc; cbn; [reflexivity|].
  rewrite IH. cbn. lia.
Qed.

Lemma strip_length (s : string) : String.length (strip s) <= String.length s.
Proof.
  unfold strip, rstrip. rewrite rev_str_length. cbn [String.length].
  pose proof (lstrip_length (rev_str (lstrip s) "")) as H1.
  rewrite rev_str_length in H1. cbn [String.length] in H1.
  pose proof (lstrip_length s). lia.
Qed.

Lemma lstrip_empty (s : string) : lstrip s = "" <-> all_space s.
Proof.
  unfold all_space. induction s as [|c s IH]; cbn; [tauto|].
  destruct (is_space c); cbn; [exact IH|]. split; discriminate.
Qed.

Lemma any_char_rev (p : ascii -> bool) (s acc : string) :
  any_char p (rev_str s acc) = any_char p s || any_char p acc.
Proof.
  revert acc. induction s as [|c s IH]; intros acc; cbn; [reflexivity|].
  rewrite IH. cbn. destruct (p c), (any_char p s), (any_char p acc); reflexivity.
Qed.

Lemma any_char_lstrip (s : string) :
  any_char (fun c => negb (is_space c)) (lstrip s) = any_char (fun c => negb (is_space c)) s.
Proof.
  induction s as [|c s IH]; cbn; [reflexivity|]. destruct (is_space c) eqn:E; cbn.
  - exact IH.
  - rewrite E. reflexivity.
Qed.

Lemma rev_str_empty (s : string) : rev_str s "" = "" <-> s = "".
Proof.
  split; [|intros ->; reflexivity]. intros H.
  pose proof (rev_str_length s "") as L. rewrite H in L. cbn in L.
  destruct s; [reflexivity | cbn in L; lia].
Qed.

Lemma strip_empty (s : string) : strip s = "" <-> all_space s.
Proof.
  unfold strip, rstrip. rewrite rev_str_empty, lstrip_empty. unfold all_space.
  rewrite any_char_rev, any_char_lstrip. cbn. rewrite orb_false_r. reflexivity.
Qed.

Lemma sub_ws_empty (s : string) : DataLoader.sub_ws false s = "" <-> s = "".
Proof.
  destruct s as [|c s]; cbn; [tauto|]. destruct (is_space c); split; discriminate.
Qed.

(** X18: cleaning a response text never lengthens it, and the cleaned text
    is empty exactly when [str(value)] consists of whitespace only. *)
Theorem clean_text_shrinks (v : cell) :
  String.length (DataLoader.clean_text v) <= String.length (py_str v) /\
  (DataLoader.clean_text v = "" <-> all_space (py_str v)).
Proof.
  unfold DataLoader.clean_text. split.
  - pose proof (sub_ws_length false (strip (py_str v))).
    pose proof (strip_length (py_str v)). lia.
  - rewrite sub_ws_empty. apply strip_empty.
Qed.

(* ------------------------------------------------------------------ *)
(** ** When an average is NaN *)

Lemma agg_mean_nan (obj : bool) (vs : list cell) (c : cell) :
  agg_mean obj vs = inr c ->
  is_str c = false /\ ((forall v, In v vs -> v = CNaN) -> c = CNaN).
Proof.
  unfold agg_mean. destruct (existsb is_str vs); [discriminate|]. intros H. split.
  - destruct (length _); injection H as <-; [reflexivity | apply f_div_not_str].
  - intros Hall.
    rewrite filter_none in H by (intros x Hx; rewrite (Hall x Hx); reflexivity).
    injection H as <-. reflexivity.
Qed.

Lemma column_of_group (c : string) (rs : list row) (k v : cell) :
  In v (column_of c (group_rows k rs)) <->
  exists r, In r rs /\ same_key (get r "model_name") k = true /\ get r c = v.
Proof.
  rewrite column_of_In. unfold group_rows. split.
  - intros [r [Hr Hv]]. apply filter_In in Hr as [Hr Hs]. eauto.
  - intros [r [Hr [Hs Hv]]]. exists r. split; [apply filter_In; auto | exact Hv].
Qed.

(** X19: in every summary each average is a number, an infinity or NaN,
    never a string, and it is NaN when every row of the model's group has
    a missing value in the averaged column ([confidence_score], resp.
    [hallucination_risk_score]). *)
Theorem summary_avg_nan (df : frame) (out : list ModelSummary) (s : ModelSummary) :
  generate_model_summary df = inr out -> In s out ->
  (is_str (avg_confidence_score s) = false /\
   ((forall r, In r (rows df) -> same_key (get r "model_name") (model_name s) = true ->
       get r "confidence_score" = CNaN) ->
    avg_confidence_score s = CNaN)) /\
  (is_str (avg_risk_score s) = false /\
   ((forall r, In r (rows df) -> same_key (get r "model_name") (model_name s) = true ->
       get r "hallucination_risk_score" = CNaN) ->
    avg_risk_score s = CNaN)).
Proof.
  intros H Hs. destruct (summary_In df out s H Hs) as [_ Hg].
  destruct (summarize_group_means _ _ _ Hg) as [Hc Hr].
  assert (Hall : forall col,
            (forall r, In r (rows df) -> same_key (get r "model_name") (model_name s) = true ->
               get r col = CNaN) ->
            forall v, In v (column_of col (group_rows (model_name s) (rows df))) -> v = CNaN).
  { intros col Hv v Hin. apply column_of_group in Hin as [r [Hr' [Hk <-]]]. auto. }
  destruct (agg_mean_nan _ _ _ Hc) as [C1 C2]. destruct (agg_mean_nan _ _ _ Hr) as [R1 R2].
  split; split; try assumption; intros Hx.
  - apply C2, (Hall "confidence_score"), Hx.
  - apply R2, (Hall "hallucination_risk_score"), Hx.
Qed.

Lemma summary_avg_nan_witness :
  In sample_summary_a sample_summaries /\
  (is_str (avg_confidence_score sample_summary_a) = false /\
   ((forall r, In r (rows sample_scored) ->
       same_key (get r "model_name") (model_name sample_summary_a) = true ->
       get r "confidence_score" = CNaN) ->
    avg_confidence_score sample_summary_a = CNaN)) /\
  (is_str (avg_risk_score sample_summary_a) = false /\
   ((forall r, In r (rows sample_scored) ->
       same_key (get r "model_name") (model_name sample_summary_a) = true ->
       get r "hallucination_risk_score" = CNaN) ->
    avg_risk_score sample_summary_a = CNaN)).
Proof.
  split; [vm_compute; left; reflexivity|].
  apply (summary_avg_nan sample_scored sample_summaries);
    [vm_compute; reflexivity | vm_compute; left; reflexivity].
Defined.
